(** * URDF exporter: a shallow embedding of [dtack/utils/urdf_exporter.py]

    The exporter reads a model description that [yaml.safe_load] has turned
    into nested Python values and prints it as a URDF document.  The
    development below embeds the Python values the loader can build (for the
    JSON-like core of YAML), the handful of dynamic operations the exporter
    applies to them (subscription, [dict.get], [in], [isinstance], [len],
    [* 2], f-string formatting), and then the four generator methods and
    [export] themselves, exceptions included. *)

From Stdlib Require Import ZArith List String Ascii Bool Lia Floats DecimalString.
From ExtLib Require Import Structures.Monad Structures.MonadExc Data.Monads.EitherMonad.
Import ListNotations.
Import MonadNotation.

Set Warnings "-inexact-float,-register-all".

Local Open Scope monad_scope.
Local Open Scope list_scope.
Local Open Scope string_scope.
Local Open Scope Z_scope.

(** ** Python values *)

Module Py.

(** What [yaml.safe_load] returns: [None], booleans, integers, floats,
    strings, lists and mappings.  A [str] is a Rocq string with one character
    per code point (code points below 256); a [dict] keeps its insertion
    order, which [repr] shows, and is keyed by strings. *)
Inductive value : Type :=
| PNone
| PBool (b : bool)
| PInt (z : Z)
| PFloat (f : float)
| PStr (s : string)
| PList (l : list value)
| PDict (d : list (string * value)).

(** The exceptions the exporter's operations can raise. *)
Inductive exn : Type :=
| KeyError (key : string)
| IndexError
| TypeError
| AttributeError
| OSError.

(** A computation that returns an [A] or raises. *)
Definition M (A : Type) : Type := (exn + A)%type.

Definition Raise {A : Type} (e : exn) : M A := inl e.
Definition Return {A : Type} (a : A) : M A := inr a.

(** *** Dictionaries *)

Fixpoint lookup (k : string) (d : list (string * value)) : option value :=
  match d with
  | [] => None
  | (k', v) :: d' => if String.eqb k k' then Some v else lookup k d'
  end.

(** [d[k] = v] on a dict: the first binding keeps its place. *)
Fixpoint store (k : string) (v : value) (d : list (string * value))
  : list (string * value) :=
  match d with
  | [] => [(k, v)]
  | (k', v') :: d' =>
      if String.eqb k k' then (k', v) :: d' else (k', v') :: store k v d'
  end.

(** [obj[key]] with a string key. *)
Definition getitem (obj : value) (key : string) : M value :=
  match obj with
  | PDict d =>
      match lookup key d with
      | Some v => Return v
      | None => Raise (KeyError key)
      end
  | _ => Raise TypeError
  end.

(** [obj.get(key, default)]: only a dict has the method. *)
Definition get (obj : value) (key : string) (default : value) : M value :=
  match obj with
  | PDict d =>
      match lookup key d with
      | Some v => Return v
      | None => Return default
      end
  | _ => Raise AttributeError
  end.

(** *** Sequences *)

Definition char_str (c : ascii) : string := String c EmptyString.

(** [obj[i]] with a literal index [i >= 0]: an element of a list, a
    character of a string; a dict keyed by strings has no such key. *)
Definition index (obj : value) (i : nat) : M value :=
  match obj with
  | PList l =>
      match nth_error l i with
      | Some v => Return v
      | None => Raise IndexError
      end
  | PStr s =>
      match String.get i s with
      | Some c => Return (PStr (char_str c))
      | None => Raise IndexError
      end
  | PDict _ => Raise (KeyError (NilZero.string_of_int (Z.to_int (Z.of_nat i))))
  | _ => Raise TypeError
  end.

Fixpoint chars (s : string) : list value :=
  match s with
  | EmptyString => []
  | String c s' => PStr (char_str c) :: chars s'
  end.

(** What a [for] loop walks over. *)
Definition iter (obj : value) : M (list value) :=
  match obj with
  | PList l => Return l
  | PStr s => Return (chars s)
  | PDict d => Return (map (fun kv => PStr (fst kv)) d)
  | _ => Raise TypeError
  end.

Fixpoint substring_of (needle s : string) : bool :=
  String.prefix needle s
  || match s with
     | EmptyString => false
     | String _ s' => substring_of needle s'
     end.

(** [key in obj] for a string [key]. *)
Definition contains (key : string) (obj : value) : M bool :=
  match obj with
  | PDict d => Return (match lookup key d with Some _ => true | None => false end)
  | PList l =>
      Return (existsb (fun v => match v with
                                | PStr s => String.eqb key s
                                | _ => false
                                end) l)
  | PStr s => Return (substring_of key s)
  | _ => Raise TypeError
  end.

(** [obj == s] for a string literal [s]. *)
Definition eq_str (obj : value) (s : string) : bool :=
  match obj with
  | PStr s' => String.eqb s' s
  | _ => false
  end.

(** [isinstance(obj, list) and len(obj) == 2]. *)
Definition is_list_of_two (obj : value) : bool :=
  match obj with
  | PList l => Nat.eqb (List.length l) 2
  | _ => false
  end.

(** [obj * 2]: numbers double, sequences repeat. *)
Definition mul2 (obj : value) : M value :=
  match obj with
  | PBool b => Return (PInt (Z.b2z b * 2))
  | PInt z => Return (PInt (z * 2))
  | PFloat f => Return (PFloat (f * 2)%float)
  | PStr s => Return (PStr (s ++ s))
  | PList l => Return (PList (l ++ l))
  | PNone | PDict _ => Raise TypeError
  end.

(** *** Formatting: [str] and [repr] *)

Definition dq : string := String (ascii_of_nat 34) EmptyString.
Definition bs : string := "\".
Definition nl : string := String (ascii_of_nat 10) EmptyString.

(** [str(z)] for an int. *)
Definition int_str (z : Z) : string := NilZero.string_of_int (Z.to_int z).

Definition hex_digit (n : nat) : string :=
  match String.get n "0123456789abcdef" with
  | Some c => char_str c
  | None => "?"
  end.

(** [str.isprintable] on the code points below 256. *)
Definition printable (n : nat) : bool :=
  ((32 <=? n) && (n <=? 126) || (161 <=? n) && negb (n =? 173))%nat.

(** One character of [repr(s)], inside the quote [quote]. *)
Definition repr_char (quote : ascii) (c : ascii) : string :=
  let n := nat_of_ascii c in
  if Ascii.eqb c quote then bs ++ char_str c
  else if (n =? 92)%nat then bs ++ bs
  else if (n =? 9)%nat then bs ++ "t"
  else if (n =? 10)%nat then bs ++ "n"
  else if (n =? 13)%nat then bs ++ "r"
  else if printable n then char_str c
  else bs ++ "x" ++ hex_digit (n / 16) ++ hex_digit (n mod 16).

Fixpoint repr_chars (quote : ascii) (s : string) : string :=
  match s with
  | EmptyString => EmptyString
  | String c s' => repr_char quote c ++ repr_chars quote s'
  end.

Fixpoint has_char (c : ascii) (s : string) : bool :=
  match s with
  | EmptyString => false
  | String c' s' => Ascii.eqb c c' || has_char c s'
  end.

(** [repr(s)] for a str: single quotes, unless the text has a single quote
    and no double quote. *)
Definition str_repr (s : string) : string :=
  let quote :=
    if has_char "'"%char s && negb (has_char (ascii_of_nat 34) s)
    then ascii_of_nat 34 else "'"%char in
  char_str quote ++ repr_chars quote s ++ char_str quote.

(** [repr(f)] for a float is the shortest decimal that reads back as [f]
    and, among those, the nearest to [f].  The numbers below are exact
    rationals [n / d] with [d > 0]. *)

(** [10^k] for [k >= 0], by repeated squaring. *)
Definition pow10 (k : Z) : Z :=
  match k with
  | Zpos p => Pos.iter_op Z.mul p 10
  | _ => 1
  end.

(** [floor ((n / d) / 10^s)]. *)
Definition scaled_floor (n d s : Z) : Z :=
  if 0 <=? s then n / (d * pow10 s) else (n * pow10 (- s)) / d.

(** [c * 10^s] against [n / d]. *)
Definition scaled_compare (c s n d : Z) : comparison :=
  if 0 <=? s then (c * pow10 s * d ?= n) else (c * d ?= n * pow10 (- s)).

(** The least [k], from [k] upwards, with [n / d < 10^k]. *)
Fixpoint find_decpt (fuel : nat) (n d k : Z) : Z :=
  match fuel with
  | O => k
  | S fuel' =>
      if scaled_floor n d k =? 0 then k else find_decpt fuel' n d (k + 1)
  end.

(** The position of the decimal point of [n / d]: the search starts just
    below the estimate that the lengths in bits give. *)
Definition decimal_point (n d : Z) : Z :=
  find_decpt 8 n d ((Z.log2 n - Z.log2 d - 1) * 30102 / 100000 - 1).

(** Is [c * 10^s] read back as the float whose rounding interval is
    [lo / d .. hi / d]?  The ends count when the mantissa is even. *)
Definition reads_back (c s lo hi d : Z) (closed : bool) : bool :=
  match scaled_compare c s lo d, scaled_compare c s hi d with
  | Gt, Lt => true
  | Eq, Lt | Gt, Eq => closed
  | _, _ => false
  end.

(** The digits and the position of the decimal point, trying 1, 2, ... 17
    digits. *)
Fixpoint shortest_digits (fuel : nat) (n k fn lo hi d : Z) (closed : bool)
  : Z * Z :=
  match fuel with
  | O => (0, k)
  | S fuel' =>
      let s := k - n in
      let c0 := scaled_floor fn d s in
      let c1 := c0 + 1 in
      let in0 := reads_back c0 s lo hi d closed in
      let in1 := reads_back c1 s lo hi d closed in
      let up :=
        match scaled_compare (c0 + c1) s (2 * fn) d with
        | Lt => true
        | Eq => Z.odd c0
        | Gt => false
        end in
      let pick (c : Z) := if c =? pow10 n then (1, k + 1) else (c, k) in
      if in0 && in1 then pick (if up then c1 else c0)
      else if in0 then pick c0
      else if in1 then pick c1
      else shortest_digits fuel' (n + 1) k fn lo hi d closed
  end.

(** [m * 2^e], a positive binary64 number, as digits and decimal point. *)
Definition shortest (m e : Z) : Z * Z :=
  let narrow := (m =? 2 ^ 52) && (-1074 <? e) in
  let unit := if narrow then 4 else 2 in
  let eu := if narrow then e - 2 else e - 1 in
  let d := if 0 <=? eu then 1 else 2 ^ (- eu) in
  let sc := if 0 <=? eu then 2 ^ eu else 1 in
  let fn := unit * m * sc in
  let lo := (unit * m - 1) * sc in
  let hi := (unit * m + unit / 2) * sc in
  shortest_digits 17 1 (decimal_point fn d) fn lo hi d (Z.even m).

Fixpoint zeros (n : nat) : string :=
  match n with
  | O => EmptyString
  | S n' => "0" ++ zeros n'
  end.

(** The layout of [repr]: exponent form when the decimal point is far from
    the digits, else fixed form with at least one digit after the point. *)
Definition float_layout (digits decpt : Z) : string :=
  let ds := int_str digits in
  let n := String.length ds in
  if (decpt <=? -4) || (16 <? decpt) then
    let e := decpt - 1 in
    String.substring 0 1 ds
    ++ (if (n =? 1)%nat then EmptyString else "." ++ String.substring 1 (n - 1) ds)
    ++ "e" ++ (if e <? 0 then "-" else "+")
    ++ (if Z.abs e <? 10 then "0" else EmptyString) ++ int_str (Z.abs e)
  else if decpt <=? 0 then "0." ++ zeros (Z.to_nat (- decpt)) ++ ds
  else if (Z.of_nat n <=? decpt) then ds ++ zeros (Z.to_nat decpt - n) ++ ".0"
  else String.substring 0 (Z.to_nat decpt) ds ++ "."
       ++ String.substring (Z.to_nat decpt) (n - Z.to_nat decpt) ds.

Definition float_repr (f : float) : string :=
  match Prim2SF f with
  | S754_nan => "nan"
  | S754_infinity neg => if neg then "-inf" else "inf"
  | S754_zero neg => if neg then "-0.0" else "0.0"
  | S754_finite neg m e =>
      let '(digits, decpt) := shortest (Z.pos m) e in
      (if neg then "-" else EmptyString) ++ float_layout digits decpt
  end.

(** [repr(v)], and [str(v)], which is what an f-string field with no format
    shows: the text itself for a str, [repr] for the rest. *)
Fixpoint repr (v : value) : string :=
  match v with
  | PNone => "None"
  | PBool b => if b then "True" else "False"
  | PInt z => int_str z
  | PFloat f => float_repr f
  | PStr s => str_repr s
  | PList l =>
      "[" ++ String.concat ", " (map repr l) ++ "]"
  | PDict d =>
      "{" ++ String.concat ", "
               (map (fun kv => str_repr (fst kv) ++ ": " ++ repr (snd kv)) d)
      ++ "}"
  end.

Definition str (v : value) : string :=
  match v with
  | PStr s => s
  | _ => repr v
  end.

End Py.

Import Py.

#[global] Instance Monad_M : Monad M := Monad_either exn.

(** ** The exporter *)

Module URDFExporter.

(** An exporter holds the path it was built from and the loaded model. *)
Record t : Type := { yaml_path : string; spec : value }.

(** What there is at a path: nothing yet, where a file may be made; a file
    that may be written over; or a place that [open] refuses to write to (a
    directory, a path through a directory that is not there, a file one has
    no right to). *)
Inductive node : Type :=
| Absent
| File (content : string)
| Closed.

(** The files by path. *)
Definition filesystem : Type := string -> node.

(** [Path.write_text]: opening the file for writing raises OSError where
    the place is closed (FileNotFoundError, IsADirectoryError and
    PermissionError are OSErrors); else the file holds [content], in place
    of what it held. *)
Definition write_text (fs : filesystem) (path content : string)
  : M filesystem :=
  match fs path with
  | Closed => Raise OSError
  | Absent | File _ =>
      Return (fun p => if String.eqb p path then File content else fs p)
  end.

(** [lines.append(line)] and [lines.extend(more)]. *)
Definition append (lines : list string) (line : string) : list string :=
  (lines ++ [line])%list.

Definition extend (lines more : list string) : list string :=
  (lines ++ more)%list.

(** An f-string field between double quotes. *)
Definition quoted (text : string) : string := dq ++ text ++ dq.

(** [_generate_inertial] *)
Definition generate_inertial (body : value) : M (list string) :=
  let lines := ["    <inertial>"] in
  mass <- getitem body "mass" ;;
  let lines := append lines ("      <mass value=" ++ quoted (str mass) ++ "/>") in
  let lines := append lines "      <inertia" in
  inertia <- getitem body "inertia" ;;
  ixx <- getitem inertia "ixx" ;;
  let lines := append lines ("        ixx=" ++ quoted (str ixx)) in
  inertia <- getitem body "inertia" ;;
  ixy <- getitem inertia "ixy" ;;
  let lines := append lines ("        ixy=" ++ quoted (str ixy)) in
  inertia <- getitem body "inertia" ;;
  ixz <- getitem inertia "ixz" ;;
  let lines := append lines ("        ixz=" ++ quoted (str ixz)) in
  inertia <- getitem body "inertia" ;;
  iyy <- getitem inertia "iyy" ;;
  let lines := append lines ("        iyy=" ++ quoted (str iyy)) in
  inertia <- getitem body "inertia" ;;
  iyz <- getitem inertia "iyz" ;;
  let lines := append lines ("        iyz=" ++ quoted (str iyz)) in
  inertia <- getitem body "inertia" ;;
  izz <- getitem inertia "izz" ;;
  let lines := append lines ("        izz=" ++ quoted (str izz) ++ "/>") in
  let lines := append lines "    </inertial>" in
  ret lines.

(** The [cylinder] and [capsule] branches of [_generate_visual] are the
    same statements. *)
Definition cylinder_lines (geom : value) (lines : list string)
  : M (list string) :=
  size <- get geom "size" (PList [PFloat 0.1; PFloat 0.1]) ;;
  let lines := append lines "      <geometry>" in
  radius <- index size 0 ;;
  half <- index size 1 ;;
  length <- mul2 half ;;
  let lines :=
    append lines ("        <cylinder radius=" ++ quoted (str radius)
                  ++ " length=" ++ quoted (str length) ++ "/>") in
  let lines := append lines "      </geometry>" in
  ret lines.

(** The [if]/[elif] chain of [_generate_visual] on [geom_type]. *)
Definition geometry_lines (geom geom_type : value) (lines : list string)
  : M (list string) :=
  if eq_str geom_type "box" then
    size <- get geom "size" (PList [PFloat 0.1; PFloat 0.1; PFloat 0.1]) ;;
    let lines := append lines "      <geometry>" in
    s0 <- index size 0 ;;
    s1 <- index size 1 ;;
    s2 <- index size 2 ;;
    let lines :=
      append lines ("        <box size="
                    ++ quoted (str s0 ++ " " ++ str s1 ++ " " ++ str s2)
                    ++ "/>") in
    let lines := append lines "      </geometry>" in
    ret lines
  else if eq_str geom_type "sphere" then
    size <- get geom "size" (PFloat 0.1) ;;
    let lines := append lines "      <geometry>" in
    let lines :=
      append lines ("        <sphere radius=" ++ quoted (str size) ++ "/>") in
    let lines := append lines "      </geometry>" in
    ret lines
  else if eq_str geom_type "cylinder" then cylinder_lines geom lines
  else if eq_str geom_type "capsule" then cylinder_lines geom lines
  else ret lines.

(** [_generate_visual] *)
Definition generate_visual (body : value) : M (list string) :=
  let lines := ["    <visual>"] in
  geom <- get body "geometry" (PDict []) ;;
  geom_type <- get geom "type" (PStr "box") ;;
  lines <- geometry_lines geom geom_type lines ;;
  rgba <- get geom "visual_rgba"
              (PList [PFloat 0.5; PFloat 0.5; PFloat 0.5; PFloat 1.0]) ;;
  name <- getitem body "name" ;;
  let lines :=
    append lines ("      <material name=" ++ quoted ("mat_" ++ str name) ++ ">") in
  r0 <- index rgba 0 ;;
  r1 <- index rgba 1 ;;
  r2 <- index rgba 2 ;;
  r3 <- index rgba 3 ;;
  let lines :=
    append lines ("        <color rgba="
                  ++ quoted (str r0 ++ " " ++ str r1 ++ " " ++ str r2
                             ++ " " ++ str r3)
                  ++ "/>") in
  let lines := append lines "      </material>" in
  let lines := append lines "    </visual>" in
  ret lines.

(** The [if "axis" in ...] statement of [_generate_segment_urdf]. *)
Definition axis_lines (segment : value) (lines : list string)
  : M (list string) :=
  joint <- getitem segment "joint" ;;
  has_axis <- contains "axis" joint ;;
  if has_axis : bool then
    joint <- getitem segment "joint" ;;
    axis <- getitem joint "axis" ;;
    a0 <- index axis 0 ;;
    a1 <- index axis 1 ;;
    a2 <- index axis 2 ;;
    ret (append lines ("    <axis xyz="
                       ++ quoted (str a0 ++ " " ++ str a1 ++ " " ++ str a2)
                       ++ "/>"))
  else ret lines.

(** The [if "limits" in ...] statement of [_generate_segment_urdf]. *)
Definition limit_lines (segment : value) (lines : list string)
  : M (list string) :=
  joint <- getitem segment "joint" ;;
  has_limits <- contains "limits" joint ;;
  if has_limits : bool then
    joint <- getitem segment "joint" ;;
    limits <- getitem joint "limits" ;;
    if is_list_of_two limits then
      lower <- index limits 0 ;;
      upper <- index limits 1 ;;
      ret (append lines ("    <limit lower=" ++ quoted (str lower)
                         ++ " upper=" ++ quoted (str upper) ++ "/>"))
    else ret lines
  else ret lines.

(** [_generate_segment_urdf] *)
Definition generate_segment_urdf (segment parent_name : value)
  : M (list string) :=
  let lines := [] in
  seg_name <- getitem segment "name" ;;
  joint <- getitem segment "joint" ;;
  joint_type <- getitem joint "type" ;;
  let lines :=
    append lines ("  <joint name="
                  ++ quoted (str parent_name ++ "_to_" ++ str seg_name)
                  ++ " type=" ++ quoted (str joint_type) ++ ">") in
  let lines :=
    append lines ("    <parent link=" ++ quoted (str parent_name) ++ "/>") in
  let lines :=
    append lines ("    <child link=" ++ quoted (str seg_name) ++ "/>") in
  lines <- axis_lines segment lines ;;
  lines <- limit_lines segment lines ;;
  let lines := append lines "  </joint>" in
  let lines := append lines ("  <link name=" ++ quoted (str seg_name) ++ ">") in
  inertial <- generate_inertial segment ;;
  let lines := extend lines inertial in
  visual <- generate_visual segment ;;
  let lines := extend lines visual in
  let lines := append lines "  </link>" in
  ret lines.

(** The [for segment in ...] loop of [_generate_urdf]. *)
Fixpoint segments_loop (root : value) (segments : list value)
  (lines : list string) : M (list string) :=
  match segments with
  | [] => ret lines
  | segment :: rest =>
      root_name <- getitem root "name" ;;
      more <- generate_segment_urdf segment root_name ;;
      segments_loop root rest (extend lines more)
  end.

(** The lines of [_generate_urdf], before they are joined. *)
Definition generate_urdf_lines (self : t) : M (list string) :=
  let lines := ["<?xml version=" ++ quoted "1.0" ++ "?>";
                "<robot name=" ++ quoted "golfer" ++ ">"] in
  let lines :=
    append lines "  <!-- Generated from canonical YAML specification -->" in
  root <- getitem (spec self) "root" ;;
  root_name <- getitem root "name" ;;
  let lines := append lines ("  <link name=" ++ quoted (str root_name) ++ ">") in
  inertial <- generate_inertial root ;;
  let lines := extend lines inertial in
  visual <- generate_visual root ;;
  let lines := extend lines visual in
  let lines := append lines "  </link>" in
  segments <- get (spec self) "segments" (PList []) ;;
  segments <- iter segments ;;
  lines <- segments_loop root segments lines ;;
  let lines := append lines "</robot>" in
  ret lines.

(** [_generate_urdf] *)
Definition generate_urdf (self : t) : M string :=
  lines <- generate_urdf_lines self ;;
  ret (String.concat nl lines).

(** [export]: the document is generated first and written last, so nothing
    is written when a generator raises. *)
Definition export (self : t) (output_path : string) (fs : filesystem)
  : M filesystem :=
  urdf_content <- generate_urdf self ;;
  write_text fs output_path urdf_content.

End URDFExporter.

Import URDFExporter.

(** ** What the generators print *)

(** The lines [_generate_inertial] prints for a mass and six tensor
    entries. *)
Definition inertial_block (mass ixx ixy ixz iyy iyz izz : value) : list string :=
  [ "    <inertial>";
    "      <mass value=" ++ quoted (str mass) ++ "/>";
    "      <inertia";
    "        ixx=" ++ quoted (str ixx);
    "        ixy=" ++ quoted (str ixy);
    "        ixz=" ++ quoted (str ixz);
    "        iyy=" ++ quoted (str iyy);
    "        iyz=" ++ quoted (str iyz);
    "        izz=" ++ quoted (str izz) ++ "/>";
    "    </inertial>" ].

(** The end of every visual block: the material named after the body, with
    its colour. *)
Definition material_line (name : value) : string :=
  "      <material name=" ++ quoted ("mat_" ++ str name) ++ ">".

Definition material_block (name r g b a : value) : list string :=
  [ material_line name;
    "        <color rgba="
      ++ quoted (str r ++ " " ++ str g ++ " " ++ str b ++ " " ++ str a)
      ++ "/>";
    "      </material>";
    "    </visual>" ].

Definition box_line (x y z : value) : string :=
  "        <box size=" ++ quoted (str x ++ " " ++ str y ++ " " ++ str z) ++ "/>".

Definition cylinder_line (radius length : value) : string :=
  "        <cylinder radius=" ++ quoted (str radius)
  ++ " length=" ++ quoted (str length) ++ "/>".

Definition geometry_block (line : string) : list string :=
  [ "    <visual>"; "      <geometry>"; line; "      </geometry>" ].

Definition default_box_line : string :=
  "        <box size=" ++ quoted "0.1 0.1 0.1" ++ "/>".

Definition default_color_line : string :=
  "        <color rgba=" ++ quoted "0.5 0.5 0.5 1.0" ++ "/>".

(** The material of a body with no colour of its own. *)
Definition default_material (name : value) : list string :=
  [ material_line name; default_color_line;
    "      </material>"; "    </visual>" ].

(** The joint element's lines. *)
Definition joint_line (parent_name seg_name joint_type : value) : string :=
  "  <joint name=" ++ quoted (str parent_name ++ "_to_" ++ str seg_name)
  ++ " type=" ++ quoted (str joint_type) ++ ">".

Definition parent_line (parent_name : value) : string :=
  "    <parent link=" ++ quoted (str parent_name) ++ "/>".

Definition child_line (seg_name : value) : string :=
  "    <child link=" ++ quoted (str seg_name) ++ "/>".

Definition axis_line (x y z : value) : string :=
  "    <axis xyz=" ++ quoted (str x ++ " " ++ str y ++ " " ++ str z) ++ "/>".

Definition limit_line (lower upper : value) : string :=
  "    <limit lower=" ++ quoted (str lower)
  ++ " upper=" ++ quoted (str upper) ++ "/>".

(** What a joint with this [axis] entry, and with this [limits] entry,
    should add to its element. *)
Definition expected_axis (axis : option value) : list string :=
  match axis with
  | Some (PList [x; y; z]) => [axis_line x y z]
  | _ => []
  end.

Definition expected_limit (limits : option value) : list string :=
  match limits with
  | Some (PList [lower; upper]) => [limit_line lower upper]
  | _ => []
  end.

Definition link_line (name : value) : string :=
  "  <link name=" ++ quoted (str name) ++ ">".

(** The block of a segment: its joint, attached to [parent_name], then its
    link. *)
Definition segment_block (parent_name seg_name joint_type : value)
  (joint_extra inertial visual : list string) : list string :=
  ([ joint_line parent_name seg_name joint_type;
     parent_line parent_name;
     child_line seg_name ]
   ++ joint_extra
   ++ [ "  </joint>"; link_line seg_name ]
   ++ inertial ++ visual ++ [ "  </link>" ])%list.

(** The three lines every document starts with. *)
Definition header : list string :=
  [ "<?xml version=" ++ quoted "1.0" ++ "?>";
    "<robot name=" ++ quoted "golfer" ++ ">";
    "  <!-- Generated from canonical YAML specification -->" ].

(** The document for a root and the blocks of its segments. *)
Definition document (root_name : value) (inertial visual : list string)
  (blocks : list (list string)) : list string :=
  (header ++ [link_line root_name] ++ inertial ++ visual ++ ["  </link>"]
   ++ List.concat blocks ++ ["</robot>"])%list.

(** ** Reading a document *)

(** [blocks] are what the loop gets for [segments], one call each, all with
    the same parent name. *)
Definition blocks_of (parent_name : value) (segments : list value)
  (blocks : list (list string)) : Prop :=
  Forall2 (fun segment block =>
             generate_segment_urdf segment parent_name = inr block)
          segments blocks.

(** The block of [segment], attached to [parent_name]. *)
Definition attached_to (parent_name segment : value) (block : list string)
  : Prop :=
  exists seg_name joint_type joint_extra inertial visual,
    getitem segment "name" = inr seg_name
    /\ generate_visual segment = inr visual
    /\ block = segment_block parent_name seg_name joint_type joint_extra
                 inertial visual.

(** [x] comes before [y] in the document. *)
Definition precedes (x y : string) (lines : list string) : Prop :=
  exists l1 l2 l3, lines = (l1 ++ x :: l2 ++ y :: l3)%list.

Definition has_line (line : string) (lines : list string) : bool :=
  existsb (String.eqb line) lines.

(** The lines after the first line [stop]. *)
Fixpoint drop_through (stop : string) (lines : list string) : list string :=
  match lines with
  | [] => []
  | line :: rest =>
      if String.eqb line stop then rest else drop_through stop rest
  end.

(** Nothing anywhere, and every place open. *)
Definition no_files : filesystem := fun _ => Absent.

(** ** Numbers *)

(** A float that is neither NaN nor infinite ([math.isfinite]). *)
Definition is_finite (f : float) : bool :=
  match Prim2SF f with
  | S754_nan | S754_infinity _ => false
  | S754_zero _ | S754_finite _ _ _ => true
  end.

Definition non_finite (v : value) : bool :=
  match v with
  | PFloat f => negb (is_finite f)
  | _ => false
  end.

Definition number (v : value) : bool :=
  match v with
  | PInt _ | PFloat _ => true
  | _ => false
  end.

(** Twice a number. *)
Definition twice (v : value) : value :=
  match v with
  | PInt z => PInt (2 * z)
  | PFloat f => PFloat (f * 2)%float
  | _ => v
  end.

(** ** What the design asks of names and parents *)

(** The definitions of this module follow the words of the design document;
    the exporter has no escaping and no check of parents to take them
    from. *)
Module Design.

(** The five reserved characters of the markup, escaped. *)
Definition escape_char (c : ascii) : string :=
  if Ascii.eqb c "&" then "&amp;"
  else if Ascii.eqb c "<" then "&lt;"
  else if Ascii.eqb c ">" then "&gt;"
  else if Ascii.eqb c (ascii_of_nat 34) then "&quot;"
  else if Ascii.eqb c "'" then "&apos;"
  else char_str c.

Fixpoint escape_attribute (text : string) : string :=
  match text with
  | EmptyString => EmptyString
  | String c rest => escape_char c ++ escape_attribute rest
  end.

Definition reserved (c : ascii) : bool :=
  Ascii.eqb c "&" || Ascii.eqb c "<" || Ascii.eqb c ">"
  || Ascii.eqb c (ascii_of_nat 34) || Ascii.eqb c "'".

(** A name with no reserved character. *)
Fixpoint legal (text : string) : bool :=
  match text with
  | EmptyString => true
  | String c rest => negb (reserved c) && legal rest
  end.

(** Every segment names as its parent the root or a segment before it:
    [known] are the names met so far. *)
Inductive resolved : list value -> list value -> Prop :=
| resolved_nil (known : list value) : resolved known []
| resolved_cons (known : list value) (segment parent name : value)
    (rest : list value) :
    getitem segment "parent" = inr parent ->
    In parent known ->
    getitem segment "name" = inr name ->
    resolved (known ++ [name]) rest ->
    resolved known (segment :: rest).

(** The same on names that are strings, as a test. *)
Fixpoint resolves (known : list string) (segments : list value) : bool :=
  match segments with
  | [] => true
  | segment :: rest =>
      match getitem segment "parent", getitem segment "name" with
      | inr (PStr parent), inr (PStr name) =>
          existsb (String.eqb parent) known && resolves (known ++ [name]) rest
      | _, _ => false
      end
  end.

End Design.

(** ** The data model *)

(** The data model of the design document, as a test on the loaded values:
    numbers where numbers are meant, vectors of the arity their place asks
    for, and the defaults the exporter has for what is left out.  The
    exporter itself tests none of this. *)
Module Shape.

(** A list of [n] numbers. *)
Definition vector (n : nat) (v : value) : bool :=
  match v with
  | PList l => Nat.eqb (List.length l) n && forallb number l
  | _ => false
  end.

Definition optional (test : value -> bool) (v : option value) : bool :=
  match v with
  | Some v => test v
  | None => true
  end.

Definition required (test : value -> bool) (v : option value) : bool :=
  match v with
  | Some v => test v
  | None => false
  end.

Definition text (v : value) : bool :=
  match v with
  | PStr _ => true
  | _ => false
  end.

Definition inertia (v : value) : bool :=
  match v with
  | PDict d =>
      forallb (fun key => required number (lookup key d))
              ["ixx"; "ixy"; "ixz"; "iyy"; "iyz"; "izz"]
  | _ => false
  end.

(** The kind of a geometry: one of the four, a box when none is given. *)
Definition kind_of (d : list (string * value)) : option string :=
  match lookup "type" d with
  | None => Some "box"
  | Some (PStr kind) =>
      if String.eqb kind "box" || String.eqb kind "sphere"
         || String.eqb kind "cylinder" || String.eqb kind "capsule"
      then Some kind else None
  | Some _ => None
  end.

(** The size a geometry of this kind carries. *)
Definition size_of (kind : string) (size : value) : bool :=
  if String.eqb kind "box" then vector 3 size
  else if String.eqb kind "sphere" then number size
  else vector 2 size.

Definition geometry (v : value) : bool :=
  match v with
  | PDict d =>
      match kind_of d with
      | Some kind =>
          optional (size_of kind) (lookup "size" d)
          && optional (vector 4) (lookup "visual_rgba" d)
      | None => false
      end
  | _ => false
  end.

Definition body_fields (d : list (string * value)) : bool :=
  required text (lookup "name" d)
  && required number (lookup "mass" d)
  && required inertia (lookup "inertia" d)
  && optional geometry (lookup "geometry" d).

Definition joint (v : value) : bool :=
  match v with
  | PDict d =>
      required text (lookup "type" d)
      && optional (vector 3) (lookup "axis" d)
  | _ => false
  end.

Definition root (v : value) : bool :=
  match v with
  | PDict d => body_fields d
  | _ => false
  end.

Definition segment (v : value) : bool :=
  match v with
  | PDict d => body_fields d && required joint (lookup "joint" d)
  | _ => false
  end.

Definition segments (v : value) : bool :=
  match v with
  | PList l => forallb segment l
  | _ => false
  end.

(** A model of the right shape: a root body and, if any, a list of
    segments, each a body with a joint. *)
Definition robot_spec (v : value) : bool :=
  match v with
  | PDict d =>
      required root (lookup "root" d)
      && optional segments (lookup "segments" d)
  | _ => false
  end.

End Shape.

(** ** What the theorems say of a document *)


(** The layout of a document: the header, the root's link, then for each
    segment, in the order of the list, its joint attached to the root and
    its link; and, when every declared parent is the root or an earlier
    segment, every body's link comes after its parent's link. *)
Definition listed_under_root (self : t) (lines : list string) : Prop :=
  exists root root_name inertial visual segments_value segments blocks,
    getitem (spec self) "root" = inr root
    /\ getitem root "name" = inr root_name
    /\ get (spec self) "segments" (PList []) = inr segments_value
    /\ iter segments_value = inr segments
    /\ lines = document root_name inertial visual blocks
    /\ Forall2 (attached_to root_name) segments blocks
    /\ (Design.resolved [root_name] segments ->
        Forall (fun segment =>
                  exists parent name,
                    getitem segment "parent" = inr parent
                    /\ getitem segment "name" = inr name
                    /\ precedes (link_line parent) (link_line name) lines)
               segments).

(** Where the names of a document go: the root's name into its link and
    material, each segment's name into its joint, child link, link and
    material, all as they are. *)
Definition names_as_given (self : t) (lines : list string) : Prop :=
  exists root inertial visual segments_value segments blocks,
    getitem (spec self) "root" = inr root
    /\ get (spec self) "segments" (PList []) = inr segments_value
    /\ iter segments_value = inr segments
    /\ (forall root_name : string,
           getitem root "name" = inr (PStr root_name) ->
           lines = document (PStr root_name) inertial visual blocks
           /\ link_line (PStr root_name)
              = "  <link name=" ++ quoted root_name ++ ">"
           /\ In ("      <material name=" ++ quoted ("mat_" ++ root_name) ++ ">")
                visual
           /\ Forall2
                (fun segment block =>
                   forall seg_name : string,
                     getitem segment "name" = inr (PStr seg_name) ->
                     exists joint_type rest,
                       block
                       = ("  <joint name="
                          ++ quoted (root_name ++ "_to_" ++ seg_name)
                          ++ " type=" ++ quoted (str joint_type) ++ ">")
                         :: ("    <parent link=" ++ quoted root_name ++ "/>")
                         :: ("    <child link=" ++ quoted seg_name ++ "/>")
                         :: rest
                       /\ In ("  <link name=" ++ quoted seg_name ++ ">") rest
                       /\ In ("      <material name=" ++ quoted ("mat_" ++ seg_name)
                              ++ ">") rest)
                segments blocks).

(** A document wrapped in the robot element named golfer: its text starts
    with the XML declaration and that element, and the root's name goes
    into the root's link and, as the parent, into the joint of every
    segment. *)
Definition wrapped_as_golfer (self : t) (doc : string) : Prop :=
  exists root root_name inertial visual segments_value segments blocks rest,
    getitem (spec self) "root" = inr root
    /\ getitem root "name" = inr root_name
    /\ get (spec self) "segments" (PList []) = inr segments_value
    /\ iter segments_value = inr segments
    /\ doc = String.concat nl (document root_name inertial visual blocks)
    /\ doc = "<?xml version=" ++ quoted "1.0" ++ "?>" ++ nl
             ++ "<robot name=" ++ quoted "golfer" ++ ">" ++ nl
             ++ "  <!-- Generated from canonical YAML specification -->" ++ nl
             ++ link_line root_name ++ nl ++ rest
    /\ Forall2 (attached_to root_name) segments blocks.

(** ** Sample bodies and models *)

Definition zero_inertia : value :=
  PDict [("ixx", PInt 0); ("ixy", PInt 0); ("ixz", PInt 0);
         ("iyy", PInt 0); ("iyz", PInt 0); ("izz", PInt 0)].

Definition rod_inertia : value :=
  PDict [("ixx", PFloat 0.004); ("ixy", PFloat 0); ("ixz", PFloat 0);
         ("iyy", PFloat 0.004); ("iyz", PFloat 0); ("izz", PFloat 0.0002)].

(** A club shaft: a capsule of radius 0.05 and half-length 0.2. *)
Definition shaft_fields : list (string * value) :=
  [("name", PStr "shaft"); ("mass", PFloat 0.3); ("inertia", rod_inertia);
   ("geometry", PDict [("type", PStr "capsule");
                       ("size", PList [PFloat 0.05; PFloat 0.2])])].

Definition shaft : value := PDict shaft_fields.

(** A body whose mass is [.nan] in the YAML source. *)
Definition nan_body : value :=
  PDict [("name", PStr "club"); ("mass", PFloat nan);
         ("inertia", zero_inertia)].

(** A body with neither geometry nor colour. *)
Definition bare_fields : list (string * value) :=
  [("name", PStr "base"); ("mass", PInt 5); ("inertia", zero_inertia)].

(** A sphere with no colour. *)
Definition ball_fields : list (string * value) :=
  [("name", PStr "ball"); ("mass", PFloat 0.045); ("inertia", zero_inertia);
   ("geometry", PDict [("type", PStr "sphere"); ("size", PFloat 0.02)])].

Definition elbow : value :=
  PDict [("name", PStr "forearm");
         ("joint", PDict [("type", PStr "revolute");
                          ("axis", PList [PInt 0; PInt 1; PInt 0]);
                          ("limits", PList [PFloat (-1.5); PFloat 1.5])]);
         ("mass", PFloat 1.2); ("inertia", rod_inertia)].

Definition wrist : value :=
  PDict [("name", PStr "hand");
         ("joint", PDict [("type", PStr "fixed");
                          ("limits", PList [PInt 0; PInt 1; PInt 2])]);
         ("mass", PFloat 0.4); ("inertia", rod_inertia)].

(** A body of mass 1 and no inertia, with more entries. *)
Definition plain_body (name : string) (more : list (string * value)) : value :=
  PDict ([("name", PStr name); ("mass", PInt 1); ("inertia", zero_inertia)]
         ++ more)%list.

Definition model (root : value) (segments : list value) : t :=
  {| yaml_path := "golfer.yaml";
     spec := PDict [("root", root); ("segments", PList segments)] |}.

(** An arm on a revolute joint about z, and a hand fixed to the arm. *)
Definition arm : value :=
  plain_body "arm" [("parent", PStr "base");
              ("joint", PDict [("type", PStr "revolute");
                               ("axis", PList [PInt 0; PInt 0; PInt 1])])].

Definition hand : value :=
  plain_body "hand" [("parent", PStr "arm");
               ("joint", PDict [("type", PStr "fixed")])].

(** The model of the worked example: a base and an arm. *)
Definition base_arm : t := model (PDict bare_fields) [arm].

(** A chain: the hand hangs on the arm, the arm on the base. *)
Definition chain : t := model (PDict bare_fields) [arm; hand].


Definition tied_fields : list (string * value) :=
  [("name", PStr "arm"); ("mass", PInt 1); ("inertia", zero_inertia);
   ("parent", PStr "base"); ("joint", PDict [("type", PStr "fixed")])].



(** A root whose name has a reserved character. *)
Definition ampersand : t :=
  model (plain_body "torso&hips" []) [].

(** ** Counting elements and telling values apart *)

(** [line.startswith(prefix)]. *)
Fixpoint starts_with (prefix line : string) : bool :=
  match prefix, line with
  | EmptyString, _ => true
  | String _ _, EmptyString => false
  | String a prefix', String b line' => Ascii.eqb a b && starts_with prefix' line'
  end.

(** How many lines open with [prefix]. *)
Definition count_lines (prefix : string) (lines : list string) : nat :=
  List.length (filter (starts_with prefix) lines).

(** A line inside an element of a link or a joint: four spaces or more. *)
Definition indented (line : string) : bool := starts_with "    " line.

Definition is_dict (v : value) : bool :=
  match v with
  | PDict _ => true
  | _ => false
  end.

(** What a [for] loop cannot walk over. *)
Definition not_iterable (v : value) : bool :=
  match v with
  | PNone | PBool _ | PInt _ | PFloat _ => true
  | PStr _ | PList _ | PDict _ => false
  end.

(** The entries of a body, of a geometry and of the tensor that the
    generators read. *)
Definition body_keys : list string :=
  ["name"; "joint"; "mass"; "inertia"; "geometry"].

Definition geometry_keys : list string := ["type"; "size"; "visual_rgba"].

Definition tensor_keys : list string :=
  ["ixx"; "ixy"; "ixz"; "iyy"; "iyz"; "izz"].

Definition geometry_kinds : list string :=
  ["box"; "sphere"; "cylinder"; "capsule"].

Definition sphere_line (size : value) : string :=
  "        <sphere radius=" ++ quoted (str size) ++ "/>".

(** The texts a line of a document can open with, one for each line the
    generators write. *)
Definition openings : list string :=
  [ "<?xml version="; "<robot name="; "  <!-- Generated from";
    "  <link name="; "  </link>"; "  <joint name="; "  </joint>";
    "    <parent link="; "    <child link="; "    <axis xyz=";
    "    <limit lower=";
    "    <inertial>"; "      <mass value="; "      <inertia";
    "        ixx="; "        ixy="; "        ixz=";
    "        iyy="; "        iyz="; "        izz="; "    </inertial>";
    "    <visual>"; "      <geometry>"; "        <box size=";
    "        <sphere radius="; "        <cylinder radius=";
    "      </geometry>"; "      <material name="; "        <color rgba=";
    "      </material>"; "    </visual>"; "</robot>" ].

(** A line that opens with one of them. *)
Definition known (line : string) : bool :=
  existsb (fun opening => starts_with opening line) openings.

(** A text that neither opens one of them nor is opened by one. *)
Definition foreign (text : string) : bool :=
  negb (existsb (fun opening => starts_with opening text
                                || starts_with text opening) openings).

(** ** The lines of a text *)

Definition newline : ascii := ascii_of_nat 10.

(** [text.split(nl)]: the lines of a text, which [nl.join] puts back
    together. *)
Fixpoint split_lines (text : string) : list string :=
  match text with
  | EmptyString => [EmptyString]
  | String c rest =>
      if Ascii.eqb c newline then EmptyString :: split_lines rest
      else match split_lines rest with
           | [] => [String c EmptyString]
           | line :: lines => String c line :: lines
           end
  end.

(** A text with no line break. *)
Fixpoint one_line (text : string) : bool :=
  match text with
  | EmptyString => true
  | String c rest => negb (Ascii.eqb c newline) && one_line rest
  end.

(** A value none of whose strings, keys among them, holds a line break. *)
Fixpoint plain (v : value) : bool :=
  match v with
  | PStr s => one_line s
  | PList l => forallb plain l
  | PDict d => forallb (fun kv => one_line (fst kv) && plain (snd kv)) d
  | PNone | PBool _ | PInt _ | PFloat _ => true
  end.

(** A root whose name runs over three lines, two of them written like the
    opening of a link. *)
Definition three_line_name : string :=
  "base" ++ nl ++ "  <link spare" ++ nl ++ "  <link other".

Definition broken_name : t := model (plain_body three_line_name []) [].

(** ** More sample bodies and models *)

Definition grey : value :=
  PList [PFloat 0.5; PFloat 0.5; PFloat 0.5; PFloat 1.0].

(** The shaft with the colour entry under the name the design gives it. *)
Definition shaft_geometry : list (string * value) :=
  [("type", PStr "capsule"); ("size", PList [PFloat 0.05; PFloat 0.2])].

(** A body whose geometry is of a kind the exporter does not know. *)
Definition mesh_fields : list (string * value) :=
  [("name", PStr "head"); ("mass", PInt 1); ("inertia", zero_inertia);
   ("geometry", PDict [("type", PStr "mesh"); ("size", PFloat 0.1)])].

(** A body whose geometry entry was left empty in the YAML source. *)
Definition blank_geometry_fields : list (string * value) :=
  [("name", PStr "head"); ("mass", PInt 1); ("inertia", zero_inertia);
   ("geometry", PNone)].

(** A cylinder whose size was written between quotes. *)
Definition quoted_size_fields : list (string * value) :=
  [("name", PStr "shaft"); ("mass", PInt 1); ("inertia", zero_inertia);
   ("geometry", PDict [("type", PStr "cylinder");
                       ("size", PList [PStr "0.05"; PStr "0.2"])])].

(** A sphere whose size is a list. *)
Definition wide_ball_fields : list (string * value) :=
  [("name", PStr "ball"); ("mass", PInt 1); ("inertia", zero_inertia);
   ("geometry", PDict [("type", PStr "sphere");
                       ("size", PList [PFloat 0.02; PFloat 0.03])])].

(** A body whose colour has no alpha. *)
Definition opaque_fields : list (string * value) :=
  [("name", PStr "head"); ("mass", PInt 1); ("inertia", zero_inertia);
   ("geometry", PDict [("type", PStr "sphere"); ("size", PFloat 0.1);
                       ("visual_rgba", PList [PInt 1; PInt 0; PInt 0])])].

(** A tensor with no [iyy]. *)
Definition holed_fields : list (string * value) :=
  [("name", PStr "club"); ("mass", PInt 1);
   ("inertia", PDict [("ixx", PInt 0); ("ixy", PInt 0); ("ixz", PInt 0);
                      ("iyz", PInt 0); ("izz", PInt 0)])].

(** Segments whose axis has two entries, and four. *)
Definition short_axis : value :=
  plain_body "arm" [("joint", PDict [("type", PStr "revolute");
                                     ("axis", PList [PInt 0; PInt 1])])].

Definition long_axis_joint : list (string * value) :=
  [("type", PStr "revolute");
   ("axis", PList [PInt 0; PInt 0; PInt 1; PInt 9])].

Definition long_axis : value :=
  plain_body "arm" [("joint", PDict long_axis_joint)].

(** Segments with no joint, with a joint of no type, and with a joint
    written as a word. *)
Definition jointless : value := plain_body "arm" [].

Definition typeless : value :=
  plain_body "arm" [("joint", PDict [("axis", PList [PInt 0; PInt 0; PInt 1])])].

Definition worded : value := plain_body "arm" [("joint", PStr "revolute")].

(** A model whose second segment has no joint, and one whose list of
    segments was left empty in the YAML source. *)
Definition broken_chain : t := model (PDict bare_fields) [arm; jointless; hand].

Definition blank_segments : t :=
  {| yaml_path := "golfer.yaml";
     spec := PDict [("root", PDict bare_fields); ("segments", PNone)] |}.

(** ** The same model, written differently *)

(** The entries of a joint that the generator reads. *)
Definition joint_keys : list string := ["type"; "axis"; "limits"].

(** Two values that hold the same under each of [keys]: one value twice, or
    two mappings whose entries there are the same, whatever the order they
    are written in and whatever they hold besides. *)
Definition agree (keys : list string) (v1 v2 : value) : Prop :=
  v1 = v2
  \/ exists d1 d2,
       v1 = PDict d1 /\ v2 = PDict d2
       /\ forall key, In key keys -> lookup key d1 = lookup key d2.

(** Under [key] the two mappings hold values that are [same], or both hold
    nothing. *)
Definition entry (same : value -> value -> Prop) (key : string)
  (d1 d2 : list (string * value)) : Prop :=
  match lookup key d1, lookup key d2 with
  | Some v1, Some v2 => same v1 v2
  | None, None => True
  | _, _ => False
  end.

(** What makes the link of a body: its name, its mass, the six entries of
    its tensor, the three of its geometry. *)
Definition same_link (d1 d2 : list (string * value)) : Prop :=
  lookup "name" d1 = lookup "name" d2
  /\ lookup "mass" d1 = lookup "mass" d2
  /\ entry (agree tensor_keys) "inertia" d1 d2
  /\ entry (agree geometry_keys) "geometry" d1 d2.

Definition same_root (b1 b2 : value) : Prop :=
  b1 = b2
  \/ exists d1 d2, b1 = PDict d1 /\ b2 = PDict d2 /\ same_link d1 d2.

(** A segment has a joint besides. *)
Definition same_segment (b1 b2 : value) : Prop :=
  b1 = b2
  \/ exists d1 d2,
       b1 = PDict d1 /\ b2 = PDict d2
       /\ same_link d1 d2 /\ entry (agree joint_keys) "joint" d1 d2.

Definition same_segments (v1 v2 : value) : Prop :=
  v1 = v2
  \/ exists l1 l2,
       v1 = PList l1 /\ v2 = PList l2 /\ Forall2 same_segment l1 l2.

(** Two loaded models that are the same input to the generators: the same
    root and the same segments in the same order, each with the same in
    the entries that are read. *)
Definition same_input (s1 s2 : value) : Prop :=
  s1 = s2
  \/ exists d1 d2,
       s1 = PDict d1 /\ s2 = PDict d2
       /\ entry same_root "root" d1 d2
       /\ entry same_segments "segments" d1 d2.

(** The model of the worked example written another way: loaded from
    another file, the segments before the root, the entries of each body in
    another order, notes beside them. *)
Definition base_arm_rewritten : t :=
  {| yaml_path := "copy.yaml";
     spec :=
       PDict
         [("segments",
           PList
             [PDict
                [("joint", PDict [("axis", PList [PInt 0; PInt 0; PInt 1]);
                                  ("damping", PFloat 0.1);
                                  ("type", PStr "revolute")]);
                 ("inertia",
                  PDict [("izz", PInt 0); ("iyz", PInt 0); ("iyy", PInt 0);
                         ("ixz", PInt 0); ("ixy", PInt 0); ("ixx", PInt 0)]);
                 ("mass", PInt 1);
                 ("name", PStr "arm")]]);
          ("note", PStr "draft");
          ("root", PDict [("inertia", zero_inertia); ("mass", PInt 5);
                          ("name", PStr "base"); ("note", PNone)])] |}.

(** ** Running the error monad *)

Lemma bind_return {A B : Type} (a : A) (k : A -> M B) :
  bind (inr a : M A) k = k a.
Proof. reflexivity. Qed.

Lemma bind_raise {A B : Type} (e : exn) (k : A -> M B) :
  bind (inl e : M A) k = inl e.
Proof. reflexivity. Qed.

Lemma bind_inr_inv {A B : Type} (c : M A) (k : A -> M B) (b : B) :
  bind c k = inr b -> exists a, c = inr a /\ k a = inr b.
Proof.
  destruct c as [e | a]; cbn; intros H.
  - discriminate H.
  - exists a. split; [reflexivity | exact H].
Qed.

Ltac run :=
  repeat match goal with
         | H : _ = inr _ |- _ => progress (rewrite H)
         | |- _ => rewrite bind_return
         end.

(** Splits a successful sequence of steps into its steps. *)
Ltac unbind H :=
  let a := fresh "a" in
  let Ha := fresh "Ha" in
  apply bind_inr_inv in H; destruct H as (a & Ha & H).

Ltac unbind_all H := repeat unbind H.

Tactic Notation "unbind" hyp(H) "as" ident(a) ident(Ha) :=
  apply bind_inr_inv in H; destruct H as (a & Ha & H).

(** Closes a goal between two ways of writing the same list of lines. *)
Ltac lines_eq :=
  unfold append, extend; cbv beta zeta; rewrite <- ?app_assoc; reflexivity.

(** ** Dictionaries *)

Lemma lookup_store_other (k k' : string) (v : value) (d : list (string * value)) :
  String.eqb k k' = false -> lookup k (store k' v d) = lookup k d.
Proof.
  intros Hk. induction d as [| [k0 v0] d IH]; simpl.
  - rewrite Hk. reflexivity.
  - destruct (String.eqb k' k0) eqn:E; simpl.
    + apply String.eqb_eq in E. subst k0. rewrite Hk. reflexivity.
    + destruct (String.eqb k k0); [reflexivity | exact IH].
Qed.

Lemma lookup_store_same (k : string) (v : value) (d : list (string * value)) :
  lookup k (store k v d) = Some v.
Proof.
  induction d as [| [k0 v0] d IH]; simpl.
  - rewrite String.eqb_refl. reflexivity.
  - destruct (String.eqb k k0) eqn:E; simpl; rewrite E; [reflexivity | exact IH].
Qed.

Lemma getitem_store_other (k k' : string) (v : value) (d : list (string * value)) :
  String.eqb k k' = false ->
  getitem (PDict (store k' v d)) k = getitem (PDict d) k.
Proof. intros Hk. unfold getitem. rewrite lookup_store_other by exact Hk. reflexivity. Qed.

Lemma get_store_other (k k' : string) (v dflt : value) (d : list (string * value)) :
  String.eqb k k' = false ->
  get (PDict (store k' v d)) k dflt = get (PDict d) k dflt.
Proof. intros Hk. unfold get. rewrite lookup_store_other by exact Hk. reflexivity. Qed.

Lemma contains_dict (key : string) (d : list (string * value)) :
  contains key (PDict d)
  = inr (match lookup key d with Some _ => true | None => false end).
Proof. reflexivity. Qed.

(** ** The inertial block *)

Section Inertial.

Variables (body inertia mass ixx ixy ixz iyy iyz izz : value).
Hypothesis Hmass : getitem body "mass" = inr mass.
Hypothesis Hinertia : getitem body "inertia" = inr inertia.
Hypothesis Hixx : getitem inertia "ixx" = inr ixx.
Hypothesis Hixy : getitem inertia "ixy" = inr ixy.
Hypothesis Hixz : getitem inertia "ixz" = inr ixz.
Hypothesis Hiyy : getitem inertia "iyy" = inr iyy.
Hypothesis Hiyz : getitem inertia "iyz" = inr iyz.
Hypothesis Hizz : getitem inertia "izz" = inr izz.

Lemma generate_inertial_block :
  generate_inertial body
  = inr (inertial_block mass ixx ixy ixz iyy iyz izz).
Proof. unfold generate_inertial. run. reflexivity. Qed.

End Inertial.

(** [_generate_inertial] reads [mass] and [inertia] only. *)
Lemma generate_inertial_store (k : string) (v : value) (d : list (string * value)) :
  String.eqb "mass" k = false -> String.eqb "inertia" k = false ->
  generate_inertial (PDict (store k v d)) = generate_inertial (PDict d).
Proof.
  intros Hm Hi. unfold generate_inertial.
  rewrite !(getitem_store_other "mass") by exact Hm.
  rewrite !(getitem_store_other "inertia") by exact Hi.
  reflexivity.
Qed.

(** ** The visual block *)

Section Visual.

Variables (body geom geom_type rgba name r g b a : value).
Variable shape : list string.
Hypothesis Hgeom : get body "geometry" (PDict []) = inr geom.
Hypothesis Htype : get geom "type" (PStr "box") = inr geom_type.
Hypothesis Hshape : geometry_lines geom geom_type ["    <visual>"] = inr shape.
Hypothesis Hrgba :
  get geom "visual_rgba"
      (PList [PFloat 0.5; PFloat 0.5; PFloat 0.5; PFloat 1.0]) = inr rgba.
Hypothesis Hname : getitem body "name" = inr name.
Hypothesis Hr : index rgba 0 = inr r.
Hypothesis Hg : index rgba 1 = inr g.
Hypothesis Hb : index rgba 2 = inr b.
Hypothesis Ha : index rgba 3 = inr a.

Lemma generate_visual_block :
  generate_visual body = inr (shape ++ material_block name r g b a)%list.
Proof. unfold generate_visual. run. lines_eq. Qed.

End Visual.

Lemma generate_visual_inv (body : value) (lines : list string) :
  generate_visual body = inr lines ->
  exists geom geom_type shape rgba name r g b a,
    get body "geometry" (PDict []) = inr geom
    /\ get geom "type" (PStr "box") = inr geom_type
    /\ geometry_lines geom geom_type ["    <visual>"] = inr shape
    /\ get geom "visual_rgba"
           (PList [PFloat 0.5; PFloat 0.5; PFloat 0.5; PFloat 1.0]) = inr rgba
    /\ getitem body "name" = inr name
    /\ index rgba 0 = inr r /\ index rgba 1 = inr g
    /\ index rgba 2 = inr b /\ index rgba 3 = inr a
    /\ lines = (shape ++ material_block name r g b a)%list.
Proof.
  unfold generate_visual. intros H. unbind_all H.
  injection H as <-.
  repeat eexists; eauto. lines_eq.
Qed.

Lemma generate_visual_store (k : string) (v : value) (d : list (string * value)) :
  String.eqb "geometry" k = false -> String.eqb "name" k = false ->
  generate_visual (PDict (store k v d)) = generate_visual (PDict d).
Proof.
  intros Hg Hn. unfold generate_visual.
  rewrite (get_store_other "geometry") by exact Hg.
  rewrite (getitem_store_other "name") by exact Hn.
  reflexivity.
Qed.

Lemma material_line_in_visual (body name : value) (visual : list string) :
  generate_visual body = inr visual ->
  getitem body "name" = inr name ->
  In (material_line name) visual.
Proof.
  intros H Hname. apply generate_visual_inv in H
    as (geom & gt & shape & rgba & n & r & g & b & a
        & _ & _ & _ & _ & Hn & _ & _ & _ & _ & ->).
  rewrite Hname in Hn. injection Hn as <-.
  apply in_or_app. right. left. reflexivity.
Qed.

Lemma mul2_number (v : value) : number v = true -> mul2 v = inr (twice v).
Proof.
  destruct v; try discriminate; intros _; simpl.
  - rewrite Z.mul_comm. reflexivity.
  - reflexivity.
Qed.

Lemma cylinder_lines_block (geom size radius half length : value)
  (lines : list string) :
  get geom "size" (PList [PFloat 0.1; PFloat 0.1]) = inr size ->
  index size 0 = inr radius ->
  index size 1 = inr half ->
  mul2 half = inr length ->
  cylinder_lines geom lines
  = inr (lines ++ ["      <geometry>"; cylinder_line radius length;
                   "      </geometry>"])%list.
Proof.
  intros Hsize H0 H1 H2. unfold cylinder_lines. run. lines_eq.
Qed.

Lemma geometry_lines_cylinder (geom : value) (kind : string)
  (lines : list string) :
  kind = "cylinder" \/ kind = "capsule" ->
  geometry_lines geom (PStr kind) lines = cylinder_lines geom lines.
Proof. intros [-> | ->]; reflexivity. Qed.

Lemma str_tenth : str (PFloat 0.1) = "0.1".
Proof. vm_compute. reflexivity. Qed.

Lemma str_half : str (PFloat 0.5) = "0.5".
Proof. vm_compute. reflexivity. Qed.

Lemma str_one : str (PFloat 1.0) = "1.0".
Proof. vm_compute. reflexivity. Qed.

Lemma default_box_text :
  box_line (PFloat 0.1) (PFloat 0.1) (PFloat 0.1) = default_box_line.
Proof. unfold box_line. rewrite str_tenth. reflexivity. Qed.

Lemma default_material_text (name : value) :
  material_block name (PFloat 0.5) (PFloat 0.5) (PFloat 0.5) (PFloat 1.0)
  = default_material name.
Proof. unfold material_block. rewrite str_half, str_one. reflexivity. Qed.

(** ** The joint and link of a segment *)

Lemma axis_lines_absent (segment joint : value) (lines : list string) :
  getitem segment "joint" = inr joint ->
  contains "axis" joint = inr false ->
  axis_lines segment lines = inr lines.
Proof. intros Hj Hc. unfold axis_lines. run. reflexivity. Qed.

Lemma axis_lines_present (segment joint axis x y z : value)
  (lines : list string) :
  getitem segment "joint" = inr joint ->
  contains "axis" joint = inr true ->
  getitem joint "axis" = inr axis ->
  index axis 0 = inr x -> index axis 1 = inr y -> index axis 2 = inr z ->
  axis_lines segment lines = inr (lines ++ [axis_line x y z])%list.
Proof. intros Hj Hc Ha Hx Hy Hz. unfold axis_lines. run. reflexivity. Qed.

Lemma limit_lines_absent (segment joint : value) (lines : list string) :
  getitem segment "joint" = inr joint ->
  contains "limits" joint = inr false ->
  limit_lines segment lines = inr lines.
Proof. intros Hj Hc. unfold limit_lines. run. reflexivity. Qed.

Lemma limit_lines_pair (segment joint lower upper : value)
  (lines : list string) :
  getitem segment "joint" = inr joint ->
  contains "limits" joint = inr true ->
  getitem joint "limits" = inr (PList [lower; upper]) ->
  limit_lines segment lines = inr (lines ++ [limit_line lower upper])%list.
Proof. intros Hj Hc Hl. unfold limit_lines. run. reflexivity. Qed.

Lemma limit_lines_other (segment joint limits : value) (lines : list string) :
  getitem segment "joint" = inr joint ->
  contains "limits" joint = inr true ->
  getitem joint "limits" = inr limits ->
  is_list_of_two limits = false ->
  limit_lines segment lines = inr lines.
Proof.
  intros Hj Hc Hl Hshape. unfold limit_lines. run.
  rewrite Hshape. reflexivity.
Qed.

(** Either statement only ever adds lines. *)
Lemma axis_lines_inv (segment : value) (lines out : list string) :
  axis_lines segment lines = inr out ->
  exists extra, out = (lines ++ extra)%list.
Proof.
  unfold axis_lines. intros H.
  unbind H as joint Hjoint. unbind H as has_axis Hhas.
  destruct has_axis.
  - unbind_all H. injection H as <-.
    eexists. reflexivity.
  - injection H as <-. exists []. rewrite app_nil_r. reflexivity.
Qed.

Lemma limit_lines_inv (segment : value) (lines out : list string) :
  limit_lines segment lines = inr out ->
  exists extra, out = (lines ++ extra)%list.
Proof.
  unfold limit_lines. intros H.
  unbind H as joint Hjoint. unbind H as has_limits Hhas.
  destruct has_limits.
  - unbind H as joint' Hjoint'. unbind H as limits Hlimits.
    destruct (is_list_of_two limits).
    + unbind_all H. injection H as <-.
      eexists. reflexivity.
    + injection H as <-. exists []. rewrite app_nil_r. reflexivity.
  - injection H as <-. exists []. rewrite app_nil_r. reflexivity.
Qed.

Lemma expected_limit_other (limits : value) :
  is_list_of_two limits = false -> expected_limit (Some limits) = [].
Proof.
  destruct limits as [| | | | | l |]; try reflexivity.
  destruct l as [| a [| b [| c l]]]; try reflexivity.
  discriminate.
Qed.

Lemma is_list_of_two_inv (limits : value) :
  is_list_of_two limits = true ->
  exists lower upper, limits = PList [lower; upper].
Proof.
  destruct limits as [| | | | | l |]; try discriminate.
  destruct l as [| a [| b [| c l]]]; try discriminate.
  intros _. exists a, b. reflexivity.
Qed.

Lemma axis_lines_expected (segment : value) (joint : list (string * value)) :
  getitem segment "joint" = inr (PDict joint) ->
  lookup "axis" joint = None
  \/ (exists x y z, lookup "axis" joint = Some (PList [x; y; z])) ->
  forall lines,
    axis_lines segment lines
    = inr (lines ++ expected_axis (lookup "axis" joint))%list.
Proof.
  intros Hj [Hnone | (x & y & z & Hsome)] lines.
  - rewrite Hnone. simpl. rewrite app_nil_r.
    apply (axis_lines_absent segment (PDict joint)); [exact Hj |].
    rewrite contains_dict, Hnone. reflexivity.
  - rewrite Hsome. simpl.
    apply (axis_lines_present segment (PDict joint) (PList [x; y; z]));
      try reflexivity; try exact Hj.
    + rewrite contains_dict, Hsome. reflexivity.
    + unfold getitem. rewrite Hsome. reflexivity.
Qed.

Lemma limit_lines_expected (segment : value) (joint : list (string * value)) :
  getitem segment "joint" = inr (PDict joint) ->
  forall lines,
    limit_lines segment lines
    = inr (lines ++ expected_limit (lookup "limits" joint))%list.
Proof.
  intros Hj lines.
  destruct (lookup "limits" joint) as [limits |] eqn:Hl.
  - destruct (is_list_of_two limits) eqn:Hshape.
    + destruct (is_list_of_two_inv limits Hshape) as (lower & upper & ->).
      simpl.
      apply (limit_lines_pair segment (PDict joint)); try exact Hj.
      * rewrite contains_dict, Hl. reflexivity.
      * unfold getitem. rewrite Hl. reflexivity.
    + rewrite (expected_limit_other limits Hshape), app_nil_r.
      apply (limit_lines_other segment (PDict joint) limits); try assumption.
      * rewrite contains_dict, Hl. reflexivity.
      * unfold getitem. rewrite Hl. reflexivity.
  - simpl. rewrite app_nil_r.
    apply (limit_lines_absent segment (PDict joint)); [exact Hj |].
    rewrite contains_dict, Hl. reflexivity.
Qed.

Lemma generate_segment_urdf_block
  (segment parent_name seg_name joint joint_type : value)
  (with_axis with_limit inertial visual : list string) :
  getitem segment "name" = inr seg_name ->
  getitem segment "joint" = inr joint ->
  getitem joint "type" = inr joint_type ->
  (forall lines, axis_lines segment lines = inr (lines ++ with_axis)%list) ->
  (forall lines, limit_lines segment lines = inr (lines ++ with_limit)%list) ->
  generate_inertial segment = inr inertial ->
  generate_visual segment = inr visual ->
  generate_segment_urdf segment parent_name
  = inr (segment_block parent_name seg_name joint_type
           (with_axis ++ with_limit) inertial visual).
Proof.
  intros Hn Hj Ht Hax Hlim Hi Hv. unfold generate_segment_urdf.
  rewrite Hn, bind_return, Hj, bind_return, Ht, bind_return.
  rewrite Hax, bind_return, Hlim, bind_return, Hi, bind_return, Hv, bind_return.
  unfold segment_block. lines_eq.
Qed.

Lemma generate_segment_urdf_inv (segment parent_name : value)
  (block : list string) :
  generate_segment_urdf segment parent_name = inr block ->
  exists seg_name joint joint_type joint_extra inertial visual,
    getitem segment "name" = inr seg_name
    /\ getitem segment "joint" = inr joint
    /\ getitem joint "type" = inr joint_type
    /\ generate_inertial segment = inr inertial
    /\ generate_visual segment = inr visual
    /\ block = segment_block parent_name seg_name joint_type
                 joint_extra inertial visual.
Proof.
  unfold generate_segment_urdf. intros H.
  unbind H as seg_name Hname. unbind H as joint Hjoint.
  unbind H as joint_type Htype. unbind H as l1 Haxis. unbind H as l2 Hlimit.
  unbind H as inertial Hinertial. unbind H as visual Hvisual.
  injection H as <-.
  apply axis_lines_inv in Haxis as (ex1 & ->).
  apply limit_lines_inv in Hlimit as (ex2 & ->).
  exists seg_name, joint, joint_type, (ex1 ++ ex2)%list, inertial, visual.
  repeat split; try assumption.
  unfold segment_block. lines_eq.
Qed.


(** ** The whole document *)

Lemma segments_loop_nil (root : value) (lines : list string) :
  segments_loop root [] lines = inr lines.
Proof. reflexivity. Qed.

Lemma segments_loop_cons (root segment : value) (rest : list value)
  (lines : list string) :
  segments_loop root (segment :: rest) lines
  = (root_name <- getitem root "name" ;;
     more <- generate_segment_urdf segment root_name ;;
     segments_loop root rest (extend lines more)).
Proof. reflexivity. Qed.

Lemma segments_loop_blocks (root root_name : value) (segments : list value)
  (blocks : list (list string)) :
  getitem root "name" = inr root_name ->
  blocks_of root_name segments blocks ->
  forall lines,
    segments_loop root segments lines = inr (lines ++ List.concat blocks)%list.
Proof.
  intros Hname Hblocks. induction Hblocks as [| seg block segs blocks Hseg _ IH];
    intros lines.
  - rewrite segments_loop_nil. simpl. rewrite app_nil_r. reflexivity.
  - rewrite segments_loop_cons, Hname, bind_return, Hseg, bind_return, IH.
    unfold extend. simpl. rewrite <- app_assoc. reflexivity.
Qed.

Lemma segments_loop_inv (root root_name : value) (segments : list value) :
  getitem root "name" = inr root_name ->
  forall lines out,
    segments_loop root segments lines = inr out ->
    exists blocks,
      blocks_of root_name segments blocks
      /\ out = (lines ++ List.concat blocks)%list.
Proof.
  intros Hname. induction segments as [| seg segs IH]; intros lines out H.
  - rewrite segments_loop_nil in H. injection H as <-.
    exists []. split; [constructor |].
    simpl. rewrite app_nil_r. reflexivity.
  - rewrite segments_loop_cons, Hname, bind_return in H.
    unbind H as block Hblock.
    apply IH in H as (blocks & Hblocks & ->).
    exists (block :: blocks). split; [constructor; assumption |].
    unfold extend. simpl. rewrite <- app_assoc. reflexivity.
Qed.


Section Document.

Variables (self : t) (root root_name segments_value : value).
Variables (inertial visual : list string).
Variable segments : list value.
Hypothesis Hroot : getitem (spec self) "root" = inr root.
Hypothesis Hname : getitem root "name" = inr root_name.
Hypothesis Hinertial : generate_inertial root = inr inertial.
Hypothesis Hvisual : generate_visual root = inr visual.
Hypothesis Hsegments : get (spec self) "segments" (PList []) = inr segments_value.
Hypothesis Hiter : iter segments_value = inr segments.

Lemma generate_urdf_lines_document (blocks : list (list string)) :
  blocks_of root_name segments blocks ->
  generate_urdf_lines self
  = inr (document root_name inertial visual blocks).
Proof.
  intros Hblocks. unfold generate_urdf_lines.
  rewrite Hroot, bind_return, Hname, bind_return, Hinertial, bind_return.
  rewrite Hvisual, bind_return, Hsegments, bind_return, Hiter, bind_return.
  rewrite (segments_loop_blocks root root_name segments blocks Hname Hblocks).
  rewrite bind_return. unfold document, header. lines_eq.
Qed.

End Document.

Lemma generate_urdf_lines_inv (self : t) (lines : list string) :
  generate_urdf_lines self = inr lines ->
  exists root root_name inertial visual segments_value segments blocks,
    getitem (spec self) "root" = inr root
    /\ getitem root "name" = inr root_name
    /\ generate_inertial root = inr inertial
    /\ generate_visual root = inr visual
    /\ get (spec self) "segments" (PList []) = inr segments_value
    /\ iter segments_value = inr segments
    /\ blocks_of root_name segments blocks
    /\ lines = document root_name inertial visual blocks.
Proof.
  unfold generate_urdf_lines. intros H.
  unbind H as root Hroot. unbind H as root_name Hname.
  unbind H as inertial Hinertial. unbind H as visual Hvisual.
  unbind H as segments_value Hsegments. unbind H as segments Hiter.
  unbind H as out Hloop. injection H as <-.
  apply (segments_loop_inv root root_name segments Hname) in Hloop
    as (blocks & Hblocks & ->).
  exists root, root_name, inertial, visual, segments_value, segments, blocks.
  repeat split; try assumption.
  unfold document, header. lines_eq.
Qed.


Lemma blocks_attached (parent_name : value) (segments : list value)
  (blocks : list (list string)) :
  blocks_of parent_name segments blocks ->
  Forall2 (attached_to parent_name) segments blocks.
Proof.
  intros H. induction H as [| seg block segs blocks Hseg _ IH];
    constructor; [| exact IH].
  apply generate_segment_urdf_inv in Hseg
    as (seg_name & joint & joint_type & extra & il & vl
        & Hn & _ & _ & _ & Hv & ->).
  exists seg_name, joint_type, extra, il, vl. repeat split; assumption.
Qed.

Lemma document_structure (self : t) (lines : list string) :
  generate_urdf_lines self = inr lines ->
  exists root root_name inertial visual segments_value segments blocks,
    getitem (spec self) "root" = inr root
    /\ getitem root "name" = inr root_name
    /\ generate_visual root = inr visual
    /\ get (spec self) "segments" (PList []) = inr segments_value
    /\ iter segments_value = inr segments
    /\ Forall2 (attached_to root_name) segments blocks
    /\ lines = document root_name inertial visual blocks.
Proof.
  intros H. apply generate_urdf_lines_inv in H
    as (root & root_name & il & vl & sv & segs & blocks
        & Hr & Hn & _ & Hv & Hs & Hi & Hb & ->).
  exists root, root_name, il, vl, sv, segs, blocks.
  repeat split; try assumption. apply blocks_attached. exact Hb.
Qed.

Lemma concat_cons (sep line next : string) (rest : list string) :
  String.concat sep (line :: next :: rest)
  = line ++ sep ++ String.concat sep (next :: rest).
Proof. reflexivity. Qed.

Lemma append_assoc (a b c : string) : (a ++ b) ++ c = a ++ b ++ c.
Proof.
  induction a as [| ch a IH]; simpl; [reflexivity |].
  rewrite IH. reflexivity.
Qed.

Lemma document_text (root_name : value) (inertial visual : list string)
  (blocks : list (list string)) :
  exists rest,
    String.concat nl (document root_name inertial visual blocks)
    = "<?xml version=" ++ quoted "1.0" ++ "?>" ++ nl
      ++ "<robot name=" ++ quoted "golfer" ++ ">" ++ nl
      ++ "  <!-- Generated from canonical YAML specification -->" ++ nl
      ++ link_line root_name ++ nl ++ rest.
Proof.
  unfold document, header.
  set (tail := (inertial ++ visual ++ ["  </link>"]
                ++ List.concat blocks ++ ["</robot>"])%list).
  assert (Htail : exists line more, tail = line :: more).
  { unfold tail. destruct inertial as [| l ls]; [| simpl; eauto].
    destruct visual as [| v vs]; simpl; eauto. }
  destruct Htail as (line & more & Htail).
  exists (String.concat nl tail).
  cbn [app].
  rewrite Htail, !concat_cons, !append_assoc. reflexivity.
Qed.



Lemma write_text_inv (fs out : filesystem) (path content : string) :
  write_text fs path content = inr out ->
  fs path <> Closed /\ out path = File content.
Proof.
  unfold write_text. intros H.
  destruct (fs path) as [| old |]; try discriminate H;
    injection H as <-; (split; [discriminate |]);
    cbv beta; rewrite String.eqb_refl; reflexivity.
Qed.

Lemma export_writes (self : t) (path : string) (fs out : filesystem) :
  export self path fs = inr out ->
  exists doc, generate_urdf self = inr doc /\ out path = File doc.
Proof.
  unfold export. intros H. unbind H as doc Hdoc.
  exists doc. split; [exact Hdoc |].
  apply (write_text_inv fs out path doc H).
Qed.

(** ** Models of the right shape are exported *)

Lemma required_some (test : value -> bool) (v : option value) :
  Shape.required test v = true -> exists x, v = Some x /\ test x = true.
Proof. destruct v as [x |]; [eauto | discriminate]. Qed.

Lemma optional_get (test : value -> bool) (d : list (string * value))
  (key : string) (default : value) :
  Shape.optional test (lookup key d) = true ->
  test default = true ->
  exists v, get (PDict d) key default = inr v /\ test v = true.
Proof.
  unfold get. destruct (lookup key d) as [v |]; simpl; eauto.
Qed.

Lemma vector_index (n : nat) (v : value) :
  Shape.vector n v = true ->
  forall i, (i < n)%nat -> exists x, index v i = inr x /\ number x = true.
Proof.
  destruct v as [| | | | | l |]; try discriminate. simpl.
  intros H i Hi. apply andb_prop in H as [Hlen Hall].
  apply Nat.eqb_eq in Hlen. subst n.
  destruct (nth_error l i) as [x |] eqn:E.
  - exists x. split; [reflexivity |].
    rewrite forallb_forall in Hall. apply Hall.
    apply (nth_error_In l i). exact E.
  - apply nth_error_None in E. lia.
Qed.

Lemma vector_three (v : value) :
  Shape.vector 3 v = true -> exists x y z, v = PList [x; y; z].
Proof.
  destruct v as [| | | | | l |]; try discriminate.
  destruct l as [| x [| y [| z [| w l]]]]; try discriminate.
  intros _. exists x, y, z. reflexivity.
Qed.

Lemma inertial_of_shape (d : list (string * value)) :
  Shape.body_fields d = true ->
  exists lines, generate_inertial (PDict d) = inr lines.
Proof.
  unfold Shape.body_fields. intros H.
  apply andb_prop in H as [H _]. apply andb_prop in H as [H Hi].
  apply andb_prop in H as [_ Hm].
  apply required_some in Hm as (m & Hm & _).
  apply required_some in Hi as (i & Hi & Hshape).
  destruct i as [| | | | | | id]; try discriminate.
  cbn [Shape.inertia forallb] in Hshape.
  repeat (apply andb_prop in Hshape as [?H Hshape]).
  repeat match goal with
         | H : Shape.required number _ = true |- _ =>
             apply required_some in H as (? & ? & _)
         end.
  eexists.
  apply (generate_inertial_block (PDict d) (PDict id));
    unfold getitem;
    match goal with
    | H : lookup ?k ?dict = Some _ |- context [lookup ?k ?dict] =>
        rewrite H; reflexivity
    end.
Qed.

Lemma geometry_lines_of_shape (g : list (string * value))
  (lines : list string) :
  Shape.geometry (PDict g) = true ->
  exists geom_type shape,
    get (PDict g) "type" (PStr "box") = inr geom_type
    /\ geometry_lines (PDict g) geom_type lines = inr shape.
Proof.
  simpl. destruct (Shape.kind_of g) as [kind |] eqn:K; [| discriminate].
  intros H. apply andb_prop in H as [Hsize _].
  assert (Hget : get (PDict g) "type" (PStr "box") = inr (PStr kind)
                 /\ (String.eqb kind "box" || String.eqb kind "sphere"
                     || String.eqb kind "cylinder"
                     || String.eqb kind "capsule" = true)).
  { unfold Shape.kind_of in K. unfold get.
    destruct (lookup "type" g) as [[| | | | k | |] |]; try discriminate.
    - destruct (String.eqb k "box" || String.eqb k "sphere"
                || String.eqb k "cylinder" || String.eqb k "capsule") eqn:E;
        [| discriminate].
      injection K as <-. split; [reflexivity | exact E].
    - injection K as <-. split; reflexivity. }
  destruct Hget as [Hget Hkind].
  exists (PStr kind). unfold geometry_lines, eq_str, Shape.size_of in *.
  destruct (String.eqb kind "box") eqn:E1.
  { destruct (optional_get _ g "size"
                (PList [PFloat 0.1; PFloat 0.1; PFloat 0.1]) Hsize eq_refl)
      as (size & Hs & Hv).
    destruct (vector_index 3 size Hv 0%nat ltac:(lia)) as (x & Hx & _).
    destruct (vector_index 3 size Hv 1%nat ltac:(lia)) as (y & Hy & _).
    destruct (vector_index 3 size Hv 2%nat ltac:(lia)) as (z & Hz & _).
    eexists. split; [exact Hget |].
    rewrite Hs, bind_return, Hx, bind_return, Hy, bind_return, Hz, bind_return.
    reflexivity. }
  destruct (String.eqb kind "sphere") eqn:E2.
  { destruct (optional_get _ g "size" (PFloat 0.1) Hsize eq_refl)
      as (size & Hs & _).
    eexists. split; [exact Hget |].
    rewrite Hs, bind_return. reflexivity. }
  destruct (optional_get _ g "size" (PList [PFloat 0.1; PFloat 0.1])
              Hsize eq_refl) as (size & Hs & Hv).
  destruct (vector_index 2 size Hv 0%nat ltac:(lia)) as (x & Hx & _).
  destruct (vector_index 2 size Hv 1%nat ltac:(lia)) as (y & Hy & Hnum).
  eexists. split; [exact Hget |].
  simpl in Hkind.
  destruct (String.eqb kind "cylinder"); [| simpl in Hkind; rewrite Hkind];
    apply (cylinder_lines_block (PDict g) size x y (twice y));
    try assumption; apply mul2_number; exact Hnum.
Qed.

Lemma visual_of_shape (d : list (string * value)) :
  Shape.body_fields d = true ->
  exists lines, generate_visual (PDict d) = inr lines.
Proof.
  unfold Shape.body_fields. intros H.
  apply andb_prop in H as [H Hg]. apply andb_prop in H as [H _].
  apply andb_prop in H as [Hn _].
  apply required_some in Hn as (name & Hn & _).
  assert (Hgeom : exists g, get (PDict d) "geometry" (PDict []) = inr (PDict g)
                            /\ Shape.geometry (PDict g) = true).
  { unfold get. destruct (lookup "geometry" d) as [geom |].
    - destruct geom as [| | | | | | g]; try discriminate.
      exists g. split; [reflexivity | exact Hg].
    - exists []. split; reflexivity. }
  destruct Hgeom as (g & Hgeom & Hshape).
  destruct (geometry_lines_of_shape g ["    <visual>"] Hshape)
    as (gt & shape & Hgt & Hlines).
  assert (Hrgba : Shape.optional (Shape.vector 4) (lookup "visual_rgba" g) = true).
  { simpl in Hshape. destruct (Shape.kind_of g); [| discriminate].
    apply andb_prop in Hshape as [_ Hshape]. exact Hshape. }
  destruct (optional_get _ g "visual_rgba"
              (PList [PFloat 0.5; PFloat 0.5; PFloat 0.5; PFloat 1.0])
              Hrgba eq_refl) as (rgba & Hr & Hv).
  destruct (vector_index 4 rgba Hv 0%nat ltac:(lia)) as (r0 & H0 & _).
  destruct (vector_index 4 rgba Hv 1%nat ltac:(lia)) as (r1 & H1 & _).
  destruct (vector_index 4 rgba Hv 2%nat ltac:(lia)) as (r2 & H2 & _).
  destruct (vector_index 4 rgba Hv 3%nat ltac:(lia)) as (r3 & H3 & _).
  eexists.
  apply (generate_visual_block (PDict d) (PDict g) gt rgba name r0 r1 r2 r3
           shape); try assumption.
  unfold getitem. rewrite Hn. reflexivity.
Qed.

Lemma segment_of_shape (segment parent_name : value) :
  Shape.segment segment = true ->
  exists block, generate_segment_urdf segment parent_name = inr block.
Proof.
  destruct segment as [| | | | | | d]; try discriminate. simpl.
  intros H. apply andb_prop in H as [Hbody Hjoint].
  destruct (inertial_of_shape d Hbody) as (il & Hil).
  destruct (visual_of_shape d Hbody) as (vl & Hvl).
  apply required_some in Hjoint as (joint & Hj & Hshape).
  destruct joint as [| | | | | | jd]; try discriminate.
  simpl in Hshape. apply andb_prop in Hshape as [Htype Haxis].
  apply required_some in Htype as (jt & Ht & _).
  unfold Shape.body_fields in Hbody.
  apply andb_prop in Hbody as [Hbody _]. apply andb_prop in Hbody as [Hbody _].
  apply andb_prop in Hbody as [Hname _].
  apply required_some in Hname as (name & Hname & _).
  assert (Hseg : getitem (PDict d) "joint" = inr (PDict jd))
    by (unfold getitem; rewrite Hj; reflexivity).
  eexists.
  apply (generate_segment_urdf_block (PDict d) parent_name name (PDict jd) jt
           (expected_axis (lookup "axis" jd))
           (expected_limit (lookup "limits" jd)) il vl);
    try assumption.
  - unfold getitem. rewrite Hname. reflexivity.
  - unfold getitem. rewrite Ht. reflexivity.
  - apply axis_lines_expected; [exact Hseg |].
    destruct (lookup "axis" jd) as [axis |]; [right | left; reflexivity].
    destruct (vector_three axis Haxis) as (x & y & z & ->). eauto.
  - apply limit_lines_expected. exact Hseg.
Qed.

Lemma blocks_of_shape (parent_name : value) (segments : list value) :
  forallb Shape.segment segments = true ->
  exists blocks, blocks_of parent_name segments blocks.
Proof.
  induction segments as [| s segs IH]; simpl; intros H.
  - exists []. constructor.
  - apply andb_prop in H as [Hs Hsegs].
    destruct (segment_of_shape s parent_name Hs) as (block & Hblock).
    destruct (IH Hsegs) as (blocks & Hblocks).
    exists (block :: blocks). constructor; assumption.
Qed.

(** Generation returns on every model of the right shape. *)
Lemma document_of_shape (self : t) :
  Shape.robot_spec (spec self) = true ->
  exists lines, generate_urdf_lines self = inr lines.
Proof.
  destruct (spec self) as [| | | | | | d] eqn:Hspec; try discriminate. simpl.
  intros H. apply andb_prop in H as [Hroot Hsegs].
  apply required_some in Hroot as (root & Hr & Hshape).
  destruct root as [| | | | | | rd]; try discriminate. simpl in Hshape.
  destruct (inertial_of_shape rd Hshape) as (il & Hil).
  destruct (visual_of_shape rd Hshape) as (vl & Hvl).
  pose proof Hshape as Hname. unfold Shape.body_fields in Hname.
  apply andb_prop in Hname as [Hname _]. apply andb_prop in Hname as [Hname _].
  apply andb_prop in Hname as [Hname _].
  apply required_some in Hname as (name & Hname & _).
  assert (Hlist : exists segs,
             get (PDict d) "segments" (PList []) = inr (PList segs)
             /\ forallb Shape.segment segs = true).
  { unfold get. destruct (lookup "segments" d) as [sv |].
    - destruct sv as [| | | | | segs |]; try discriminate.
      exists segs. split; [reflexivity | exact Hsegs].
    - exists []. split; reflexivity. }
  destruct Hlist as (segs & Hget & Hall).
  destruct (blocks_of_shape name segs Hall) as (blocks & Hblocks).
  exists (document name il vl blocks).
  apply (generate_urdf_lines_document self (PDict rd) name (PList segs)
           il vl segs); try assumption; rewrite ?Hspec; try assumption.
  - unfold getitem. rewrite Hr. reflexivity.
  - unfold getitem. rewrite Hname. reflexivity.
  - reflexivity.
Qed.

(** ** The order of the bodies *)

Lemma resolves_resolved (segments : list value) :
  forall known : list string,
    Design.resolves known segments = true ->
    Design.resolved (map PStr known) segments.
Proof.
  induction segments as [| segment rest IH]; intros known H.
  - constructor.
  - simpl in H.
    destruct (getitem segment "parent") as [e | [| | | | parent | |]] eqn:Hp;
      try discriminate.
    destruct (getitem segment "name") as [e | [| | | | name | |]] eqn:Hn;
      try discriminate.
    apply andb_prop in H as [Hknown Hrest].
    apply (Design.resolved_cons _ segment (PStr parent) (PStr name));
      try assumption.
    + apply existsb_exists in Hknown as (k & Hk & Heq).
      apply String.eqb_eq in Heq. subst k. apply in_map. exact Hk.
    + specialize (IH _ Hrest). rewrite map_app in IH. exact IH.
Qed.

Lemma precedes_in (x y : string) (l1 l2 l3 : list string) :
  In x l1 -> In y l2 -> precedes x y (l1 ++ l2 ++ l3)%list.
Proof.
  intros Hx Hy.
  apply in_split in Hx as (a1 & a2 & ->).
  apply in_split in Hy as (b1 & b2 & ->).
  exists a1, (a2 ++ b1)%list, (b2 ++ l3)%list.
  rewrite <- ?app_assoc. simpl. rewrite <- ?app_assoc. reflexivity.
Qed.

Lemma link_line_in_block (parent_name segment : value) (block : list string)
  (seg_name : value) :
  attached_to parent_name segment block ->
  getitem segment "name" = inr seg_name ->
  In (link_line seg_name) block.
Proof.
  intros (n & jt & extra & il & vl & Hn & _ & ->) Hname.
  rewrite Hname in Hn. injection Hn as <-.
  unfold segment_block. simpl. right. right. right.
  apply in_or_app. right. right. left. reflexivity.
Qed.

Lemma parents_precede (parent_name : value) (segments : list value)
  (blocks : list (list string)) :
  Forall2 (attached_to parent_name) segments blocks ->
  forall (known : list value) (before after : list string),
    (forall k, In k known -> In (link_line k) before) ->
    Design.resolved known segments ->
    Forall (fun segment =>
              exists parent name,
                getitem segment "parent" = inr parent
                /\ getitem segment "name" = inr name
                /\ precedes (link_line parent) (link_line name)
                     (before ++ List.concat blocks ++ after)%list)
           segments.
Proof.
  intros H. induction H as [| seg block segs blocks Hatt _ IH];
    intros known before after Hknown Hres.
  - constructor.
  - inversion Hres as [| known' seg' parent name rest Hp Hin Hn Hrest];
      subst.
    pose proof (link_line_in_block _ _ _ _ Hatt Hn) as Hlink.
    constructor.
    + exists parent, name. repeat split; try assumption.
      simpl. rewrite <- app_assoc.
      apply precedes_in; [apply Hknown; exact Hin | exact Hlink].
    + replace (before ++ List.concat (block :: blocks) ++ after)%list
        with ((before ++ block) ++ List.concat blocks ++ after)%list
        by (simpl; rewrite <- !app_assoc; reflexivity).
      apply (IH (known ++ [name])%list); [| exact Hrest].
      intros k Hk. apply in_app_or in Hk as [Hk | [<- | []]].
      * apply in_or_app. left. apply Hknown. exact Hk.
      * apply in_or_app. right. exact Hlink.
Qed.

Lemma listed_under_root_of_document (self : t) (lines : list string) :
  generate_urdf_lines self = inr lines -> listed_under_root self lines.
Proof.
  intros H. apply document_structure in H
    as (root & root_name & il & vl & sv & segs & blocks
        & Hr & Hn & Hv & Hs & Hi & Hatt & ->).
  exists root, root_name, il, vl, sv, segs, blocks.
  repeat split; try assumption.
  intros Hres.
  replace (document root_name il vl blocks)
    with ((header ++ [link_line root_name] ++ il ++ vl ++ ["  </link>"])
          ++ List.concat blocks ++ ["</robot>"])%list
    by (unfold document; rewrite <- ?app_assoc; reflexivity).
  apply (parents_precede root_name segs blocks Hatt [root_name]);
    [| exact Hres].
  intros k [<- | []]. apply in_or_app. right. left. reflexivity.
Qed.

(** C1, as the code has it: for a model of the right shape the document is
    generated; it starts with the root's link and goes on with the segments
    in the order of their list, each as a joint followed by a link, so that
    a body whose declared parent is the root or an earlier segment comes
    after that parent; the parent link of every joint is the root, whatever
    parent the segment declares. *)
Theorem bodies_listed_under_root (self : t) :
  Shape.robot_spec (spec self) = true ->
  exists lines,
    generate_urdf_lines self = inr lines /\ listed_under_root self lines.
Proof.
  intros Hshape.
  destruct (document_of_shape self Hshape) as (lines & Hlines).
  exists lines. split; [exact Hlines |].
  apply listed_under_root_of_document. exact Hlines.
Qed.

Lemma bodies_listed_under_root_witness :
  exists lines,
    generate_urdf_lines chain = inr lines /\ listed_under_root chain lines.
Proof. apply (bodies_listed_under_root chain). reflexivity. Defined.

(** C1, as the claim states it, fails: the chain is of the right shape and
    every declared parent is known; the hand declares the arm as its parent,
    yet the hand's joint has the base as its parent link, and no joint in
    the document has the arm. *)
Lemma chain_hand_hangs_on_base :
  Shape.robot_spec (spec chain) = true
  /\ Design.resolves ["base"] [arm; hand] = true
  /\ getitem hand "parent" = inr (PStr "arm")
  /\ exists lines,
       generate_urdf_lines chain = inr lines
       /\ nth_error lines 48
          = Some (joint_line (PStr "base") (PStr "hand") (PStr "fixed"))
       /\ nth_error lines 49 = Some (parent_line (PStr "base"))
       /\ nth_error lines 50 = Some (child_line (PStr "hand"))
       /\ has_line (parent_line (PStr "arm")) lines = false.
Proof.
  split; [reflexivity |]. split; [reflexivity |]. split; [reflexivity |].
  eexists. split; [reflexivity |].
  repeat split; vm_compute; reflexivity.
Qed.

(** ** Names in attributes *)

Lemma escape_legal (text : string) :
  Design.legal text = true -> Design.escape_attribute text = text.
Proof.
  induction text as [| c rest IH]; simpl; [reflexivity |].
  intros H. apply andb_prop in H as [Hc Hrest].
  rewrite (IH Hrest). unfold Design.reserved in Hc. unfold Design.escape_char.
  apply negb_true_iff in Hc.
  repeat (apply orb_false_elim in Hc; destruct Hc as [Hc ?]).
  repeat match goal with
         | H : Ascii.eqb _ _ = false |- _ => rewrite H; clear H
         end.
  reflexivity.
Qed.

(** C2, as the code has it: every body, segment and material name is put
    between the quotes of its attribute exactly as it was given, reserved
    characters included; so a name with no reserved character is there
    unchanged, which is also what escaping it would give. *)
Theorem names_embedded_as_given (self : t) (lines : list string) :
  generate_urdf_lines self = inr lines ->
  names_as_given self lines
  /\ forall name, Design.legal name = true ->
                  Design.escape_attribute name = name.
Proof.
  intros H. split; [| exact escape_legal].
  apply document_structure in H
    as (root & root_name & il & vl & sv & segs & blocks
        & Hr & Hn & Hv & Hs & Hi & Hatt & ->).
  exists root, il, vl, sv, segs, blocks.
  split; [exact Hr |]. split; [exact Hs |]. split; [exact Hi |].
  intros name Hname. rewrite Hn in Hname. injection Hname as ->.
  split; [reflexivity |]. split; [reflexivity |]. split.
  - apply (material_line_in_visual root (PStr name) vl Hv Hn).
  - eapply Forall2_impl; [| exact Hatt].
    intros segment block (n & jt & extra & sil & svl & Hsn & Hsv & ->)
           seg_name Hseg.
    rewrite Hseg in Hsn. injection Hsn as <-.
    exists jt,
      (extra ++ ["  </joint>"; link_line (PStr seg_name)]
       ++ sil ++ svl ++ ["  </link>"])%list.
    split; [reflexivity |].
    rewrite !in_app_iff. cbn [In]. split.
    + right. left. right. left. reflexivity.
    + right. right. right. left.
      apply (material_line_in_visual segment (PStr seg_name) svl Hsv Hseg).
Qed.

Lemma names_embedded_as_given_witness :
  exists lines,
    generate_urdf_lines ampersand = inr lines
    /\ names_as_given ampersand lines
    /\ forall name, Design.legal name = true ->
                    Design.escape_attribute name = name.
Proof.
  eexists. split.
  - reflexivity.
  - apply (names_embedded_as_given ampersand). reflexivity.
Defined.

(** C2, as the claim states it, fails: the ampersand of the root's name is
    in the document as it is, where escaping would have written the
    entity. *)
Lemma ampersand_is_not_escaped :
  Design.escape_attribute "torso&hips" = "torso&amp;hips"
  /\ exists lines,
       generate_urdf_lines ampersand = inr lines
       /\ has_line ("  <link name=" ++ quoted "torso&hips" ++ ">") lines = true
       /\ has_line ("  <link name="
                    ++ quoted (Design.escape_attribute "torso&hips") ++ ">")
            lines = false
       /\ has_line ("      <material name=" ++ quoted "mat_torso&hips" ++ ">")
            lines = true.
Proof.
  split; [reflexivity |].
  eexists. split; [reflexivity |].
  repeat split; vm_compute; reflexivity.
Qed.

(** ** Declared parents *)




(** ** Inertia and mass *)

Lemma non_finite_str (v : value) :
  non_finite v = true -> In (str v) ["nan"; "inf"; "-inf"].
Proof.
  destruct v; simpl; try discriminate.
  unfold float_repr, is_finite.
  destruct (Prim2SF f) as [s | s | | s m e]; try discriminate; intros _.
  - destruct s; simpl; auto.
  - simpl; auto.
Qed.

(** C4, as the code has it: a body whose mass or tensor has a NaN or an
    infinity is not refused; the inertial block is printed as for any other
    body and shows the value as nan, inf or -inf. *)
Theorem inertial_prints_non_finite
  (body inertia mass ixx ixy ixz iyy iyz izz : value) :
  getitem body "mass" = inr mass ->
  getitem body "inertia" = inr inertia ->
  getitem inertia "ixx" = inr ixx ->
  getitem inertia "ixy" = inr ixy ->
  getitem inertia "ixz" = inr ixz ->
  getitem inertia "iyy" = inr iyy ->
  getitem inertia "iyz" = inr iyz ->
  getitem inertia "izz" = inr izz ->
  existsb non_finite [mass; ixx; ixy; ixz; iyy; iyz; izz] = true ->
  generate_inertial body = inr (inertial_block mass ixx ixy ixz iyy iyz izz)
  /\ forall v, In v [mass; ixx; ixy; ixz; iyy; iyz; izz] ->
               non_finite v = true ->
               In (str v) ["nan"; "inf"; "-inf"].
Proof.
  intros Hm Hi Hxx Hxy Hxz Hyy Hyz Hzz _. split.
  - eapply generate_inertial_block; eassumption.
  - intros v _. apply non_finite_str.
Qed.

Lemma inertial_prints_non_finite_witness :
  generate_inertial nan_body
  = inr (inertial_block (PFloat nan) (PInt 0) (PInt 0) (PInt 0)
           (PInt 0) (PInt 0) (PInt 0))
  /\ forall v,
       In v [PFloat nan; PInt 0; PInt 0; PInt 0; PInt 0; PInt 0; PInt 0] ->
       non_finite v = true ->
       In (str v) ["nan"; "inf"; "-inf"].
Proof.
  apply (inertial_prints_non_finite nan_body zero_inertia); reflexivity.
Defined.

(** C4, as the claim states it, fails: with mass NaN the generator returns
    the block, and the mass attribute reads nan. *)
Lemma nan_mass_is_emitted :
  non_finite (PFloat nan) = true
  /\ generate_inertial nan_body
     = inr [ "    <inertial>";
             "      <mass value=" ++ quoted "nan" ++ "/>";
             "      <inertia";
             "        ixx=" ++ quoted "0";
             "        ixy=" ++ quoted "0";
             "        ixz=" ++ quoted "0";
             "        iyy=" ++ quoted "0";
             "        iyz=" ++ quoted "0";
             "        izz=" ++ quoted "0" ++ "/>";
             "    </inertial>" ].
Proof. split; vm_compute; reflexivity. Qed.

(** C8: for a body with a mass and the six tensor entries, the inertial
    block is the fixed frame of ten lines holding the mass and the entries
    ixx, ixy, ixz, iyy, iyz, izz as Python prints them, with nothing
    computed from them; the block is the same whatever geometry the body is
    given. *)
Theorem inertial_block_verbatim
  (fields : list (string * value))
  (inertia mass ixx ixy ixz iyy iyz izz : value) :
  getitem (PDict fields) "mass" = inr mass ->
  getitem (PDict fields) "inertia" = inr inertia ->
  getitem inertia "ixx" = inr ixx ->
  getitem inertia "ixy" = inr ixy ->
  getitem inertia "ixz" = inr ixz ->
  getitem inertia "iyy" = inr iyy ->
  getitem inertia "iyz" = inr iyz ->
  getitem inertia "izz" = inr izz ->
  forall geometry : value,
    generate_inertial (PDict (store "geometry" geometry fields))
    = inr (inertial_block mass ixx ixy ixz iyy iyz izz)
    /\ generate_inertial (PDict fields)
       = inr (inertial_block mass ixx ixy ixz iyy iyz izz).
Proof.
  intros Hm Hi Hxx Hxy Hxz Hyy Hyz Hzz geometry.
  rewrite generate_inertial_store by reflexivity.
  split; eapply generate_inertial_block; eassumption.
Qed.

Lemma inertial_block_verbatim_witness :
  generate_inertial
    (PDict (store "geometry" (PDict [("type", PStr "sphere")]) shaft_fields))
  = inr (inertial_block (PFloat 0.3) (PFloat 0.004) (PFloat 0) (PFloat 0)
           (PFloat 0.004) (PFloat 0) (PFloat 0.0002))
  /\ generate_inertial shaft
     = inr (inertial_block (PFloat 0.3) (PFloat 0.004) (PFloat 0) (PFloat 0)
              (PFloat 0.004) (PFloat 0) (PFloat 0.0002)).
Proof.
  apply (inertial_block_verbatim shaft_fields rod_inertia); reflexivity.
Defined.

(** ** Geometry and colour *)

(** C5: a cylinder or a capsule whose size is [radius, h], with [h] a
    number, is printed as a cylinder element whose radius is the stored
    radius and whose length is twice [h]. *)
Theorem cylinder_length_is_twice_half_length
  (body geom : value) (kind : string)
  (radius half rgba name r g b a : value) :
  get body "geometry" (PDict []) = inr geom ->
  get geom "type" (PStr "box") = inr (PStr kind) ->
  kind = "cylinder" \/ kind = "capsule" ->
  get geom "size" (PList [PFloat 0.1; PFloat 0.1]) = inr (PList [radius; half]) ->
  number half = true ->
  get geom "visual_rgba"
      (PList [PFloat 0.5; PFloat 0.5; PFloat 0.5; PFloat 1.0]) = inr rgba ->
  getitem body "name" = inr name ->
  index rgba 0 = inr r -> index rgba 1 = inr g ->
  index rgba 2 = inr b -> index rgba 3 = inr a ->
  generate_visual body
  = inr (geometry_block (cylinder_line radius (twice half))
         ++ material_block name r g b a)%list.
Proof.
  intros Hgeom Htype Hkind Hsize Hnum Hrgba Hname Hr Hg Hb Ha.
  eapply generate_visual_block; try eassumption.
  rewrite (geometry_lines_cylinder geom kind _ Hkind).
  apply (cylinder_lines_block geom (PList [radius; half]) radius half
           (twice half) ["    <visual>"]).
  - exact Hsize.
  - reflexivity.
  - reflexivity.
  - apply mul2_number. exact Hnum.
Qed.

(** The capsule of size [0.05, 0.2] comes out as a cylinder of radius 0.05
    and length 0.4. *)
Lemma cylinder_length_is_twice_half_length_witness :
  generate_visual shaft
  = inr (geometry_block (cylinder_line (PFloat 0.05) (PFloat 0.4))
         ++ material_block (PStr "shaft") (PFloat 0.5) (PFloat 0.5)
              (PFloat 0.5) (PFloat 1.0))%list.
Proof.
  apply (cylinder_length_is_twice_half_length shaft
           (PDict [("type", PStr "capsule");
                   ("size", PList [PFloat 0.05; PFloat 0.2])])
           "capsule" (PFloat 0.05) (PFloat 0.2)
           (PList [PFloat 0.5; PFloat 0.5; PFloat 0.5; PFloat 1.0]));
    try reflexivity.
  right. reflexivity.
Defined.

Example capsule_text :
  cylinder_line (PFloat 0.05) (twice (PFloat 0.2))
  = "        <cylinder radius=" ++ quoted "0.05"
    ++ " length=" ++ quoted "0.4" ++ "/>".
Proof. vm_compute. reflexivity. Qed.

(** C7: a body with no geometry gets a box of size 0.1 0.1 0.1 in its
    visual block, and a body with no colour, whether it has a geometry or
    not, gets the colour 0.5 0.5 0.5 1.0. *)
Theorem visual_defaults (fields : list (string * value)) (name : value) :
  lookup "name" fields = Some name ->
  (lookup "geometry" fields = None ->
   generate_visual (PDict fields)
   = inr ([ "    <visual>"; "      <geometry>"; default_box_line;
            "      </geometry>" ] ++ default_material name)%list)
  /\ (forall (geom : list (string * value)) (geom_type : value)
             (shape : list string),
         lookup "geometry" fields = Some (PDict geom) ->
         lookup "visual_rgba" geom = None ->
         get (PDict geom) "type" (PStr "box") = inr geom_type ->
         geometry_lines (PDict geom) geom_type ["    <visual>"] = inr shape ->
         generate_visual (PDict fields)
         = inr (shape ++ default_material name)%list).
Proof.
  intros Hname. split.
  - intros Hnone.
    rewrite <- default_material_text, <- default_box_text.
    apply (generate_visual_block (PDict fields) (PDict []) (PStr "box")
             (PList [PFloat 0.5; PFloat 0.5; PFloat 0.5; PFloat 1.0]));
      try reflexivity.
    + unfold get. rewrite Hnone. reflexivity.
    + unfold getitem. rewrite Hname. reflexivity.
  - intros geom geom_type shape Hgeom Hrgba Htype Hshape.
    rewrite <- default_material_text.
    apply (generate_visual_block (PDict fields) (PDict geom) geom_type
             (PList [PFloat 0.5; PFloat 0.5; PFloat 0.5; PFloat 1.0]));
      try assumption; try reflexivity.
    + unfold get. rewrite Hgeom. reflexivity.
    + unfold get. rewrite Hrgba. reflexivity.
    + unfold getitem. rewrite Hname. reflexivity.
Qed.

Lemma visual_defaults_witness :
  generate_visual (PDict bare_fields)
  = inr [ "    <visual>"; "      <geometry>"; default_box_line;
          "      </geometry>";
          "      <material name=" ++ quoted "mat_base" ++ ">";
          default_color_line; "      </material>"; "    </visual>" ]
  /\ generate_visual (PDict ball_fields)
     = inr [ "    <visual>"; "      <geometry>";
             "        <sphere radius=" ++ quoted "0.02" ++ "/>";
             "      </geometry>";
             "      <material name=" ++ quoted "mat_ball" ++ ">";
             default_color_line; "      </material>"; "    </visual>" ].
Proof.
  split.
  - apply (visual_defaults bare_fields (PStr "base")); reflexivity.
  - apply (proj2 (visual_defaults ball_fields (PStr "ball") eq_refl)
             [("type", PStr "sphere"); ("size", PFloat 0.02)]
             (PStr "sphere")
             [ "    <visual>"; "      <geometry>";
               "        <sphere radius=" ++ quoted "0.02" ++ "/>";
               "      </geometry>" ]);
      vm_compute; reflexivity.
Defined.

(** ** Axis and limits of a joint *)

(** C6: a segment whose joint has no axis, or an axis of three entries, is
    printed with an axis element exactly when the axis is there, holding the
    three entries in their order; it is printed with a limit element exactly
    when its limits are a list of two entries, holding the two in their
    order; limits of any other shape add nothing and raise nothing. *)
Theorem joint_axis_and_limit
  (segment parent_name seg_name joint_type : value)
  (joint : list (string * value)) (inertial visual : list string) :
  getitem segment "name" = inr seg_name ->
  getitem segment "joint" = inr (PDict joint) ->
  lookup "type" joint = Some joint_type ->
  lookup "axis" joint = None
  \/ (exists x y z, lookup "axis" joint = Some (PList [x; y; z])) ->
  generate_inertial segment = inr inertial ->
  generate_visual segment = inr visual ->
  exists with_axis with_limit,
    generate_segment_urdf segment parent_name
    = inr (segment_block parent_name seg_name joint_type
             (with_axis ++ with_limit) inertial visual)
    /\ (lookup "axis" joint = None -> with_axis = [])
    /\ (forall x y z, lookup "axis" joint = Some (PList [x; y; z]) ->
                      with_axis = [axis_line x y z])
    /\ (forall lower upper,
           lookup "limits" joint = Some (PList [lower; upper]) ->
           with_limit = [limit_line lower upper])
    /\ ((forall lower upper,
            lookup "limits" joint <> Some (PList [lower; upper])) ->
        with_limit = []).
Proof.
  intros Hname Hjoint Htype Haxis Hinertial Hvisual.
  exists (expected_axis (lookup "axis" joint)),
         (expected_limit (lookup "limits" joint)).
  split; [| repeat split].
  - apply (generate_segment_urdf_block segment parent_name seg_name
             (PDict joint) joint_type); try assumption.
    + unfold getitem. rewrite Htype. reflexivity.
    + apply axis_lines_expected; assumption.
    + apply limit_lines_expected; assumption.
  - intros ->. reflexivity.
  - intros x y z ->. reflexivity.
  - intros lower upper ->. reflexivity.
  - intros Hnot.
    destruct (lookup "limits" joint) as [limits |]; [| reflexivity].
    destruct (is_list_of_two limits) eqn:Hshape.
    + destruct (is_list_of_two_inv limits Hshape) as (lower & upper & ->).
      exfalso. apply (Hnot lower upper). reflexivity.
    + apply expected_limit_other. exact Hshape.
Qed.

Lemma joint_axis_and_limit_witness :
  (exists inertial visual,
      generate_segment_urdf elbow (PStr "base")
      = inr (segment_block (PStr "base") (PStr "forearm") (PStr "revolute")
               [ axis_line (PInt 0) (PInt 1) (PInt 0);
                 limit_line (PFloat (-1.5)) (PFloat 1.5) ]
               inertial visual))
  /\ (exists inertial visual,
         generate_segment_urdf wrist (PStr "base")
         = inr (segment_block (PStr "base") (PStr "hand") (PStr "fixed")
                  [] inertial visual)).
Proof.
  split.
  - destruct (joint_axis_and_limit elbow (PStr "base") (PStr "forearm")
                (PStr "revolute")
                [("type", PStr "revolute");
                 ("axis", PList [PInt 0; PInt 1; PInt 0]);
                 ("limits", PList [PFloat (-1.5); PFloat 1.5])]
                (inertial_block (PFloat 1.2) (PFloat 0.004) (PFloat 0)
                   (PFloat 0) (PFloat 0.004) (PFloat 0) (PFloat 0.0002))
                (geometry_block default_box_line
                 ++ default_material (PStr "forearm"))%list
                eq_refl eq_refl eq_refl)
      as (with_axis & with_limit & Hrun & _ & Haxis & Hlimit & _).
    + right. exists (PInt 0), (PInt 1), (PInt 0). reflexivity.
    + reflexivity.
    + vm_compute. reflexivity.
    + rewrite (Haxis _ _ _ eq_refl), (Hlimit _ _ eq_refl) in Hrun.
      eexists. eexists. exact Hrun.
  - destruct (joint_axis_and_limit wrist (PStr "base") (PStr "hand")
                (PStr "fixed")
                [("type", PStr "fixed");
                 ("limits", PList [PInt 0; PInt 1; PInt 2])]
                (inertial_block (PFloat 0.4) (PFloat 0.004) (PFloat 0)
                   (PFloat 0) (PFloat 0.004) (PFloat 0) (PFloat 0.0002))
                (geometry_block default_box_line
                 ++ default_material (PStr "hand"))%list
                eq_refl eq_refl eq_refl)
      as (with_axis & with_limit & Hrun & Haxis & _ & _ & Hlimit).
    + left. reflexivity.
    + reflexivity.
    + vm_compute. reflexivity.
    + rewrite (Haxis eq_refl), Hlimit in Hrun.
      * eexists. eexists. exact Hrun.
      * intros lower upper. discriminate.
Defined.

(** ** Running the export twice *)

Lemma bind_ext {A B : Type} (c : M A) (k1 k2 : A -> M B) :
  (forall a, k1 a = k2 a) -> bind c k1 = bind c k2.
Proof. intros H. destruct c as [e | a]; [reflexivity | apply H]. Qed.

Lemma agree_refl (keys : list string) (v : value) : agree keys v v.
Proof. left. reflexivity. Qed.

Lemma getitem_agree (keys : list string) (v1 v2 : value) (key : string) :
  agree keys v1 v2 -> In key keys -> getitem v1 key = getitem v2 key.
Proof.
  intros [-> | (d1 & d2 & -> & -> & H)] Hin; [reflexivity |].
  unfold getitem. rewrite (H key Hin). reflexivity.
Qed.

Lemma get_agree (keys : list string) (v1 v2 : value) (key : string)
  (default : value) :
  agree keys v1 v2 -> In key keys -> get v1 key default = get v2 key default.
Proof.
  intros [-> | (d1 & d2 & -> & -> & H)] Hin; [reflexivity |].
  unfold get. rewrite (H key Hin). reflexivity.
Qed.

Lemma contains_agree (keys : list string) (v1 v2 : value) (key : string) :
  agree keys v1 v2 -> In key keys -> contains key v1 = contains key v2.
Proof.
  intros [-> | (d1 & d2 & -> & -> & H)] Hin; [reflexivity |].
  unfold contains. rewrite (H key Hin). reflexivity.
Qed.

Lemma getitem_entry {B : Type} (same : value -> value -> Prop)
  (key : string) (d1 d2 : list (string * value)) (k1 k2 : value -> M B) :
  entry same key d1 d2 ->
  (forall v1 v2, same v1 v2 -> k1 v1 = k2 v2) ->
  bind (getitem (PDict d1) key) k1 = bind (getitem (PDict d2) key) k2.
Proof.
  unfold entry, getitem. intros He Hk.
  destruct (lookup key d1) as [v1 |], (lookup key d2) as [v2 |];
    try contradiction; [| reflexivity].
  unfold Return. rewrite !bind_return. apply Hk, He.
Qed.

Lemma get_entry {B : Type} (same : value -> value -> Prop)
  (key : string) (d1 d2 : list (string * value)) (default : value)
  (k1 k2 : value -> M B) :
  entry same key d1 d2 ->
  same default default ->
  (forall v1 v2, same v1 v2 -> k1 v1 = k2 v2) ->
  bind (get (PDict d1) key default) k1 = bind (get (PDict d2) key default) k2.
Proof.
  unfold entry, get. intros He Hd Hk.
  destruct (lookup key d1) as [v1 |], (lookup key d2) as [v2 |];
    try contradiction; unfold Return; rewrite !bind_return; apply Hk;
    [exact He | exact Hd].
Qed.

Lemma getitem_lookup (d1 d2 : list (string * value)) (key : string) :
  lookup key d1 = lookup key d2 ->
  getitem (PDict d1) key = getitem (PDict d2) key.
Proof. intros H. unfold getitem. rewrite H. reflexivity. Qed.

(** The key is one of those listed. *)
Ltac among :=
  unfold tensor_keys, geometry_keys, joint_keys; cbn [In];
  repeat first [left; reflexivity | right].

Lemma generate_inertial_same (d1 d2 : list (string * value)) :
  same_link d1 d2 ->
  generate_inertial (PDict d1) = generate_inertial (PDict d2).
Proof.
  intros (_ & Hmass & Hinertia & _).
  unfold generate_inertial. cbv zeta.
  rewrite (getitem_lookup d1 d2 "mass" Hmass).
  apply bind_ext. intros mass.
  repeat (apply (getitem_entry _ _ _ _ _ _ Hinertia);
          let Hi := fresh "Hi" in
          intros ? ? Hi;
          rewrite (getitem_agree tensor_keys _ _ _ Hi) by among;
          apply bind_ext; intros ?).
  reflexivity.
Qed.

Lemma geometry_lines_agree (g1 g2 geom_type : value) (lines : list string) :
  agree geometry_keys g1 g2 ->
  geometry_lines g1 geom_type lines = geometry_lines g2 geom_type lines.
Proof.
  intros Hg. unfold geometry_lines, cylinder_lines.
  rewrite !(fun default =>
              get_agree geometry_keys g1 g2 "size" default Hg
                ltac:(among)).
  reflexivity.
Qed.

Lemma generate_visual_same (d1 d2 : list (string * value)) :
  same_link d1 d2 ->
  generate_visual (PDict d1) = generate_visual (PDict d2).
Proof.
  intros (Hname & _ & _ & Hgeometry).
  unfold generate_visual. cbv zeta.
  apply (get_entry _ _ _ _ _ _ _ Hgeometry); [apply agree_refl |].
  intros g1 g2 Hg.
  rewrite (get_agree geometry_keys g1 g2 "type" _ Hg) by among.
  apply bind_ext. intros geom_type.
  rewrite (geometry_lines_agree g1 g2 geom_type _ Hg).
  apply bind_ext. intros lines.
  rewrite (get_agree geometry_keys g1 g2 "visual_rgba" _ Hg) by among.
  apply bind_ext. intros rgba.
  rewrite (getitem_lookup d1 d2 "name" Hname). reflexivity.
Qed.

Lemma axis_lines_same (d1 d2 : list (string * value)) (lines : list string) :
  entry (agree joint_keys) "joint" d1 d2 ->
  axis_lines (PDict d1) lines = axis_lines (PDict d2) lines.
Proof.
  intros Hjoint. unfold axis_lines.
  apply (getitem_entry _ _ _ _ _ _ Hjoint). intros j1 j2 Hj.
  rewrite (contains_agree joint_keys j1 j2 "axis" Hj) by among.
  apply bind_ext. intros [|]; [| reflexivity].
  apply (getitem_entry _ _ _ _ _ _ Hjoint). intros j1' j2' Hj'.
  rewrite (getitem_agree joint_keys j1' j2' "axis" Hj') by among.
  reflexivity.
Qed.

Lemma limit_lines_same (d1 d2 : list (string * value)) (lines : list string) :
  entry (agree joint_keys) "joint" d1 d2 ->
  limit_lines (PDict d1) lines = limit_lines (PDict d2) lines.
Proof.
  intros Hjoint. unfold limit_lines.
  apply (getitem_entry _ _ _ _ _ _ Hjoint). intros j1 j2 Hj.
  rewrite (contains_agree joint_keys j1 j2 "limits" Hj) by among.
  apply bind_ext. intros [|]; [| reflexivity].
  apply (getitem_entry _ _ _ _ _ _ Hjoint). intros j1' j2' Hj'.
  rewrite (getitem_agree joint_keys j1' j2' "limits" Hj') by among.
  reflexivity.
Qed.

Lemma generate_segment_urdf_same (segment1 segment2 parent_name : value) :
  same_segment segment1 segment2 ->
  generate_segment_urdf segment1 parent_name
  = generate_segment_urdf segment2 parent_name.
Proof.
  intros [-> | (d1 & d2 & -> & -> & Hlink & Hjoint)]; [reflexivity |].
  unfold generate_segment_urdf. cbv zeta.
  rewrite (getitem_lookup d1 d2 "name" (proj1 Hlink)).
  apply bind_ext. intros seg_name.
  apply (getitem_entry _ _ _ _ _ _ Hjoint). intros j1 j2 Hj.
  rewrite (getitem_agree joint_keys j1 j2 "type" Hj) by among.
  apply bind_ext. intros joint_type.
  rewrite (axis_lines_same d1 d2 _ Hjoint).
  apply bind_ext. intros with_axis.
  rewrite (limit_lines_same d1 d2 _ Hjoint).
  apply bind_ext. intros with_limit.
  rewrite (generate_inertial_same d1 d2 Hlink),
    (generate_visual_same d1 d2 Hlink).
  reflexivity.
Qed.

Lemma same_root_name (root1 root2 : value) :
  same_root root1 root2 -> getitem root1 "name" = getitem root2 "name".
Proof.
  intros [-> | (d1 & d2 & -> & -> & Hlink)]; [reflexivity |].
  apply getitem_lookup, Hlink.
Qed.

Lemma same_root_inertial (root1 root2 : value) :
  same_root root1 root2 -> generate_inertial root1 = generate_inertial root2.
Proof.
  intros [-> | (d1 & d2 & -> & -> & Hlink)]; [reflexivity |].
  apply generate_inertial_same, Hlink.
Qed.

Lemma same_root_visual (root1 root2 : value) :
  same_root root1 root2 -> generate_visual root1 = generate_visual root2.
Proof.
  intros [-> | (d1 & d2 & -> & -> & Hlink)]; [reflexivity |].
  apply generate_visual_same, Hlink.
Qed.

Lemma segments_loop_same (root1 root2 : value) (segments1 segments2 : list value) :
  same_root root1 root2 ->
  Forall2 same_segment segments1 segments2 ->
  forall lines,
    segments_loop root1 segments1 lines = segments_loop root2 segments2 lines.
Proof.
  intros Hroot H.
  induction H as [| segment1 segment2 rest1 rest2 Hsegment _ IH]; intros lines.
  - reflexivity.
  - cbn [segments_loop]. rewrite (same_root_name root1 root2 Hroot).
    apply bind_ext. intros root_name.
    rewrite (generate_segment_urdf_same segment1 segment2 root_name Hsegment).
    apply bind_ext. intros more. apply IH.
Qed.

Lemma same_segment_each (segments : list value) :
  Forall2 same_segment segments segments.
Proof.
  induction segments as [| segment rest IH]; constructor;
    [left; reflexivity | exact IH].
Qed.

Lemma generate_urdf_lines_same (self1 self2 : t) :
  same_input (spec self1) (spec self2) ->
  generate_urdf_lines self1 = generate_urdf_lines self2.
Proof.
  unfold generate_urdf_lines. cbv zeta.
  intros [-> | (d1 & d2 & -> & -> & Hroot & Hsegments)]; [reflexivity |].
  apply (getitem_entry _ _ _ _ _ _ Hroot). intros root1 root2 Hr.
  rewrite (same_root_name root1 root2 Hr).
  apply bind_ext. intros root_name.
  rewrite (same_root_inertial root1 root2 Hr).
  apply bind_ext. intros inertial.
  rewrite (same_root_visual root1 root2 Hr).
  apply bind_ext. intros visual.
  apply (get_entry _ _ _ _ _ _ _ Hsegments); [left; reflexivity |].
  intros v1 v2 [-> | (l1 & l2 & -> & -> & Hl)].
  - apply bind_ext. intros segments.
    rewrite (segments_loop_same root1 root2 segments segments Hr
               (same_segment_each segments)).
    reflexivity.
  - cbn [iter]. unfold Return. rewrite !bind_return.
    rewrite (segments_loop_same root1 root2 l1 l2 Hr Hl). reflexivity.
Qed.

(** C9: the document is made from what the loaded model holds in the
    entries the generators read, and from nothing else.  Two exporters with
    the same there (one exporter twice; or two built from whatever files,
    with the entries written in whatever order and whatever besides them)
    generate the same document or raise the same exception; given the same
    files their exports do the same; any two of their exports that return
    have left the same bytes, wherever they wrote and whatever was there;
    and an export that returns when run again over the files the first run
    left has left every file as it was. *)
Theorem export_is_deterministic (self1 self2 : t) :
  same_input (spec self1) (spec self2) ->
  generate_urdf self1 = generate_urdf self2
  /\ (forall path fs, export self1 path fs = export self2 path fs)
  /\ (forall path1 path2 fs1 fs2 out1 out2,
         export self1 path1 fs1 = inr out1 ->
         export self2 path2 fs2 = inr out2 ->
         out1 path1 = out2 path2)
  /\ (forall path fs out again,
         export self1 path fs = inr out ->
         export self2 path out = inr again ->
         forall p, again p = out p).
Proof.
  intros Hsame.
  assert (Hdoc : generate_urdf self1 = generate_urdf self2)
    by (unfold generate_urdf;
        rewrite (generate_urdf_lines_same self1 self2 Hsame); reflexivity).
  split; [exact Hdoc |]. split; [| split].
  - intros path fs. unfold export. rewrite Hdoc. reflexivity.
  - intros path1 path2 fs1 fs2 out1 out2 H1 H2.
    apply export_writes in H1 as (doc1 & Hdoc1 & ->).
    apply export_writes in H2 as (doc2 & Hdoc2 & ->).
    rewrite Hdoc, Hdoc2 in Hdoc1. injection Hdoc1 as ->. reflexivity.
  - intros path fs out again H Hagain p.
    pose proof (export_writes self1 path fs out H) as (doc & Hgen & Hfile).
    unfold export in Hagain. rewrite <- Hdoc, Hgen, bind_return in Hagain.
    unfold write_text in Hagain. rewrite Hfile in Hagain.
    injection Hagain as <-.
    destruct (String.eqb p path) eqn:E; [| reflexivity].
    apply String.eqb_eq in E. subst p. symmetry. exact Hfile.
Qed.

(** Shows two values to hold the same under the keys that are read. *)
Ltac same_entries :=
  right; eexists; eexists; split; [reflexivity |]; split; [reflexivity |];
  let key := fresh "key" in
  let Hin := fresh "Hin" in
  intros key Hin;
  unfold tensor_keys, geometry_keys, joint_keys in Hin; cbn [In] in Hin;
  repeat (destruct Hin as [<- | Hin]; [reflexivity |]);
  contradiction.

Lemma export_is_deterministic_witness :
  generate_urdf base_arm = generate_urdf base_arm_rewritten
  /\ (forall path fs,
         export base_arm path fs = export base_arm_rewritten path fs)
  /\ (forall path1 path2 fs1 fs2 out1 out2,
         export base_arm path1 fs1 = inr out1 ->
         export base_arm_rewritten path2 fs2 = inr out2 ->
         out1 path1 = out2 path2)
  /\ (forall path fs out again,
         export base_arm path fs = inr out ->
         export base_arm_rewritten path out = inr again ->
         forall p, again p = out p).
Proof.
  apply (export_is_deterministic base_arm base_arm_rewritten).
  right. eexists. eexists.
  split; [reflexivity |]. split; [reflexivity |]. split.
  - right. eexists. eexists.
    split; [reflexivity |]. split; [reflexivity |].
    split; [reflexivity |]. split; [reflexivity |].
    split; [left; reflexivity | exact I].
  - right. eexists. eexists.
    split; [reflexivity |]. split; [reflexivity |].
    constructor; [| constructor].
    right. eexists. eexists.
    split; [reflexivity |]. split; [reflexivity |].
    split.
    + split; [reflexivity |]. split; [reflexivity |].
      split; [same_entries | exact I].
    + same_entries.
Defined.

(** ** The worked example *)

(** A base of mass 5 and an arm of mass 1 on a revolute joint about z: one
    link for the base, the joint base_to_arm with its axis, one link for
    the arm. *)
Example base_arm_document :
  generate_urdf_lines base_arm
  = inr (header
         ++ [ ("  <link name=" ++ quoted "base" ++ ">")%string ]
         ++ inertial_block (PInt 5) (PInt 0) (PInt 0) (PInt 0)
              (PInt 0) (PInt 0) (PInt 0)
         ++ geometry_block default_box_line
         ++ default_material (PStr "base")
         ++ [ "  </link>";
              ("  <joint name=" ++ quoted "base_to_arm"
               ++ " type=" ++ quoted "revolute" ++ ">")%string;
              ("    <parent link=" ++ quoted "base" ++ "/>")%string;
              ("    <child link=" ++ quoted "arm" ++ "/>")%string;
              ("    <axis xyz=" ++ quoted "0 0 1" ++ "/>")%string;
              "  </joint>";
              ("  <link name=" ++ quoted "arm" ++ ">")%string ]
         ++ inertial_block (PInt 1) (PInt 0) (PInt 0) (PInt 0)
              (PInt 0) (PInt 0) (PInt 0)
         ++ geometry_block default_box_line
         ++ default_material (PStr "arm")
         ++ [ "  </link>"; "</robot>" ])%list.
Proof. vm_compute. reflexivity. Qed.

(** ** The robot element *)

(** C10, as the code has it: whatever the model, the document opens with
    the robot element named golfer; the root's name is in the root's link
    and, besides, in the joint of every segment, as the first half of the
    joint's name and as its parent link. *)
Theorem robot_is_named_golfer (self : t) (doc : string) :
  generate_urdf self = inr doc -> wrapped_as_golfer self doc.
Proof.
  unfold generate_urdf. intros H. unbind H as lines Hlines.
  injection H as <-.
  apply document_structure in Hlines
    as (root & root_name & il & vl & sv & segs & blocks
        & Hr & Hn & Hv & Hs & Hi & Hatt & ->).
  destruct (document_text root_name il vl blocks) as (rest & Htext).
  exists root, root_name, il, vl, sv, segs, blocks, rest.
  repeat split; assumption.
Qed.

Lemma robot_is_named_golfer_witness :
  exists doc,
    generate_urdf base_arm = inr doc /\ wrapped_as_golfer base_arm doc.
Proof.
  eexists. split.
  - reflexivity.
  - apply (robot_is_named_golfer base_arm). reflexivity.
Defined.

(** C10, as the claim states it, fails on its last part: after the root's
    link has closed, the root's name is there again, in the name and in the
    parent link of the arm's joint. *)
Lemma root_name_is_in_the_joints :
  exists lines,
    generate_urdf_lines base_arm = inr lines
    /\ nth_error lines 1 = Some ("<robot name=" ++ quoted "golfer" ++ ">")
    /\ nth_error lines 3 = Some ("  <link name=" ++ quoted "base" ++ ">")
    /\ nth_error lines 22 = Some "  </link>"
    /\ nth_error lines 23
       = Some ("  <joint name=" ++ quoted "base_to_arm"
               ++ " type=" ++ quoted "revolute" ++ ">")
    /\ nth_error lines 24 = Some ("    <parent link=" ++ quoted "base" ++ "/>")
    /\ existsb (substring_of "base") (drop_through "  </link>" lines) = true.
Proof.
  eexists. split; [reflexivity |].
  repeat split; vm_compute; reflexivity.
Qed.

(** ** Entries the generators do not read *)

Lemma not_among (key : string) (keys : list string) (k : string) :
  existsb (String.eqb key) keys = false -> In k keys -> String.eqb k key = false.
Proof.
  intros H Hin. destruct (String.eqb k key) eqn:E; [| reflexivity].
  apply String.eqb_eq in E. subst k.
  assert (Hex : existsb (String.eqb key) keys = true).
  { apply existsb_exists. exists key. split; [exact Hin | apply String.eqb_refl]. }
  rewrite Hex in H. discriminate H.
Qed.

(** X1: an entry of a body under any key but name, joint, mass, inertia
    and geometry changes nothing of what the generators print for the body:
    not its inertial block, not its visual block, not its joint and link. *)
Theorem body_ignores_other_entries (key : string) (v : value)
  (fields : list (string * value)) (parent_name : value) :
  existsb (String.eqb key) body_keys = false ->
  generate_inertial (PDict (store key v fields))
  = generate_inertial (PDict fields)
  /\ generate_visual (PDict (store key v fields))
     = generate_visual (PDict fields)
  /\ generate_segment_urdf (PDict (store key v fields)) parent_name
     = generate_segment_urdf (PDict fields) parent_name.
Proof.
  intros H.
  assert (Hname : String.eqb "name" key = false)
    by (apply (not_among key body_keys); [exact H | simpl; tauto]).
  assert (Hjoint : String.eqb "joint" key = false)
    by (apply (not_among key body_keys); [exact H | simpl; tauto]).
  assert (Hmass : String.eqb "mass" key = false)
    by (apply (not_among key body_keys); [exact H | simpl; tauto]).
  assert (Hinertia : String.eqb "inertia" key = false)
    by (apply (not_among key body_keys); [exact H | simpl; tauto]).
  assert (Hgeometry : String.eqb "geometry" key = false)
    by (apply (not_among key body_keys); [exact H | simpl; tauto]).
  split; [| split].
  - apply generate_inertial_store; assumption.
  - apply generate_visual_store; assumption.
  - unfold generate_segment_urdf, axis_lines, limit_lines.
    rewrite (getitem_store_other "name" key) by exact Hname.
    rewrite !(getitem_store_other "joint" key) by exact Hjoint.
    rewrite (generate_inertial_store key) by assumption.
    rewrite (generate_visual_store key) by assumption.
    reflexivity.
Qed.

Lemma body_ignores_other_entries_witness :
  generate_inertial (PDict (store "length" (PFloat 0.3) tied_fields))
  = generate_inertial (PDict tied_fields)
  /\ generate_visual (PDict (store "length" (PFloat 0.3) tied_fields))
     = generate_visual (PDict tied_fields)
  /\ generate_segment_urdf (PDict (store "length" (PFloat 0.3) tied_fields))
       (PStr "base")
     = generate_segment_urdf (PDict tied_fields) (PStr "base").
Proof.
  apply (body_ignores_other_entries "length" (PFloat 0.3) tied_fields
           (PStr "base")).
  reflexivity.
Defined.

Lemma geometry_lines_store (key : string) (v geom_type : value)
  (geom : list (string * value)) (lines : list string) :
  String.eqb "size" key = false ->
  geometry_lines (PDict (store key v geom)) geom_type lines
  = geometry_lines (PDict geom) geom_type lines.
Proof.
  intros Hsize. unfold geometry_lines, cylinder_lines.
  rewrite !(get_store_other "size" key) by exact Hsize.
  reflexivity.
Qed.

(** X2: an entry of a geometry under any key but type, size and
    visual_rgba changes nothing of the visual block; a colour given under
    another name, visual_color say, is not used. *)
Theorem geometry_ignores_other_entries (key : string) (v : value)
  (fields geom : list (string * value)) :
  lookup "geometry" fields = Some (PDict geom) ->
  existsb (String.eqb key) geometry_keys = false ->
  generate_visual
    (PDict (store "geometry" (PDict (store key v geom)) fields))
  = generate_visual (PDict fields).
Proof.
  intros Hgeom H.
  assert (Htype : String.eqb "type" key = false)
    by (apply (not_among key geometry_keys); [exact H | simpl; tauto]).
  assert (Hsize : String.eqb "size" key = false)
    by (apply (not_among key geometry_keys); [exact H | simpl; tauto]).
  assert (Hrgba : String.eqb "visual_rgba" key = false)
    by (apply (not_among key geometry_keys); [exact H | simpl; tauto]).
  unfold generate_visual.
  rewrite (getitem_store_other "name" "geometry") by reflexivity.
  assert (Hnew : get (PDict (store "geometry" (PDict (store key v geom)) fields))
                     "geometry" (PDict [])
                 = inr (PDict (store key v geom)))
    by (unfold get; rewrite lookup_store_same; reflexivity).
  assert (Hold : get (PDict fields) "geometry" (PDict []) = inr (PDict geom))
    by (unfold get; rewrite Hgeom; reflexivity).
  rewrite Hnew, Hold, !bind_return.
  rewrite (get_store_other "type" key) by exact Htype.
  destruct (get (PDict geom) "type" (PStr "box")) as [e | geom_type];
    [reflexivity |].
  rewrite !bind_return, (geometry_lines_store key) by exact Hsize.
  rewrite (get_store_other "visual_rgba" key) by exact Hrgba.
  reflexivity.
Qed.

Lemma geometry_ignores_other_entries_witness :
  generate_visual
    (PDict (store "geometry"
              (PDict (store "visual_color"
                        (PList [PInt 1; PInt 0; PInt 0; PInt 1])
                        shaft_geometry))
              shaft_fields))
  = generate_visual (PDict shaft_fields).
Proof.
  apply (geometry_ignores_other_entries "visual_color"
           (PList [PInt 1; PInt 0; PInt 0; PInt 1])
           shaft_fields shaft_geometry);
    reflexivity.
Defined.

(** ** Geometries the exporter takes as they come *)

Lemma geometry_lines_unknown (geom geom_type : value) (lines : list string) :
  existsb (eq_str geom_type) geometry_kinds = false ->
  geometry_lines geom geom_type lines = inr lines.
Proof.
  unfold geometry_kinds. cbn [existsb]. intros H.
  repeat (apply orb_false_elim in H; destruct H as [?H H]).
  unfold geometry_lines.
  repeat match goal with
         | E : eq_str geom_type _ = false |- _ => rewrite E; clear E
         end.
  reflexivity.
Qed.

(** X3: a geometry whose type is none of box, sphere, cylinder and capsule
    (another word, another spelling, or no string at all) raises nothing and
    gets no geometry element: the visual block has the material alone. *)
Theorem unknown_geometry_prints_no_shape
  (body geom geom_type rgba name r g b a : value) :
  get body "geometry" (PDict []) = inr geom ->
  get geom "type" (PStr "box") = inr geom_type ->
  existsb (eq_str geom_type) geometry_kinds = false ->
  get geom "visual_rgba" grey = inr rgba ->
  getitem body "name" = inr name ->
  index rgba 0 = inr r -> index rgba 1 = inr g ->
  index rgba 2 = inr b -> index rgba 3 = inr a ->
  generate_visual body = inr ("    <visual>" :: material_block name r g b a).
Proof.
  intros Hgeom Htype Hkind Hrgba Hname Hr Hg Hb Ha.
  apply (generate_visual_block body geom geom_type rgba name r g b a
           ["    <visual>"]); try assumption.
  apply geometry_lines_unknown. exact Hkind.
Qed.

Lemma unknown_geometry_prints_no_shape_witness :
  generate_visual (PDict mesh_fields)
  = inr ("    <visual>"
         :: material_block (PStr "head") (PFloat 0.5) (PFloat 0.5)
              (PFloat 0.5) (PFloat 1.0)).
Proof.
  apply (unknown_geometry_prints_no_shape (PDict mesh_fields)
           (PDict [("type", PStr "mesh"); ("size", PFloat 0.1)])
           (PStr "mesh") grey);
    reflexivity.
Defined.

(** X4: a body whose geometry entry is there but is no mapping (left empty
    in the YAML source, a word, a list) makes the visual generator raise
    AttributeError, whatever else the body holds. *)
Theorem geometry_must_be_a_mapping (fields : list (string * value))
  (geom : value) :
  lookup "geometry" fields = Some geom ->
  is_dict geom = false ->
  generate_visual (PDict fields) = inl AttributeError.
Proof.
  intros Hgeom Hdict. unfold generate_visual, get at 1.
  rewrite Hgeom, bind_return.
  destruct geom; try discriminate Hdict; reflexivity.
Qed.

Lemma geometry_must_be_a_mapping_witness :
  generate_visual (PDict blank_geometry_fields) = inl AttributeError.
Proof.
  apply (geometry_must_be_a_mapping blank_geometry_fields PNone);
    reflexivity.
Defined.

(** X5: a cylinder or capsule whose half-length is a text, as a number
    written between quotes is, raises nothing: the length attribute is the
    text written twice over. *)
Theorem text_half_length_is_repeated
  (body geom : value) (kind half : string)
  (radius rgba name r g b a : value) :
  get body "geometry" (PDict []) = inr geom ->
  get geom "type" (PStr "box") = inr (PStr kind) ->
  kind = "cylinder" \/ kind = "capsule" ->
  get geom "size" (PList [PFloat 0.1; PFloat 0.1])
  = inr (PList [radius; PStr half]) ->
  get geom "visual_rgba" grey = inr rgba ->
  getitem body "name" = inr name ->
  index rgba 0 = inr r -> index rgba 1 = inr g ->
  index rgba 2 = inr b -> index rgba 3 = inr a ->
  generate_visual body
  = inr (geometry_block
           ("        <cylinder radius=" ++ quoted (str radius)
            ++ " length=" ++ quoted (half ++ half) ++ "/>")
         ++ material_block name r g b a)%list.
Proof.
  intros Hgeom Htype Hkind Hsize Hrgba Hname Hr Hg Hb Ha.
  apply (generate_visual_block body geom (PStr kind) rgba name r g b a);
    try assumption.
  rewrite (geometry_lines_cylinder geom kind _ Hkind).
  apply (cylinder_lines_block geom (PList [radius; PStr half]) radius
           (PStr half) (PStr (half ++ half)) ["    <visual>"]);
    try reflexivity.
  exact Hsize.
Qed.

Lemma text_half_length_is_repeated_witness :
  generate_visual (PDict quoted_size_fields)
  = inr (geometry_block
           ("        <cylinder radius=" ++ quoted "0.05"
            ++ " length=" ++ quoted "0.20.2" ++ "/>")
         ++ material_block (PStr "shaft") (PFloat 0.5) (PFloat 0.5)
              (PFloat 0.5) (PFloat 1.0))%list.
Proof.
  apply (text_half_length_is_repeated (PDict quoted_size_fields)
           (PDict [("type", PStr "cylinder");
                   ("size", PList [PStr "0.05"; PStr "0.2"])])
           "cylinder" "0.2" (PStr "0.05") grey);
    try reflexivity.
  left. reflexivity.
Defined.

(** X6: a sphere's size is printed whole, whatever it is, and never
    indexed: a size that is a list comes out as the list Python prints,
    brackets and commas included. *)
Theorem sphere_size_is_printed_whole
  (body geom size rgba name r g b a : value) :
  get body "geometry" (PDict []) = inr geom ->
  get geom "type" (PStr "box") = inr (PStr "sphere") ->
  get geom "size" (PFloat 0.1) = inr size ->
  get geom "visual_rgba" grey = inr rgba ->
  getitem body "name" = inr name ->
  index rgba 0 = inr r -> index rgba 1 = inr g ->
  index rgba 2 = inr b -> index rgba 3 = inr a ->
  generate_visual body
  = inr (geometry_block (sphere_line size)
         ++ material_block name r g b a)%list
  /\ forall entries, size = PList entries ->
       str size = "[" ++ String.concat ", " (map repr entries) ++ "]".
Proof.
  intros Hgeom Htype Hsize Hrgba Hname Hr Hg Hb Ha. split.
  - apply (generate_visual_block body geom (PStr "sphere") rgba name r g b a);
      try assumption.
    unfold geometry_lines. cbn [eq_str String.eqb Ascii.eqb Bool.eqb].
    rewrite Hsize, bind_return. reflexivity.
  - intros entries ->. reflexivity.
Qed.

Lemma sphere_size_is_printed_whole_witness :
  generate_visual (PDict wide_ball_fields)
  = inr (geometry_block
           ("        <sphere radius=" ++ quoted "[0.02, 0.03]" ++ "/>")
         ++ material_block (PStr "ball") (PFloat 0.5) (PFloat 0.5)
              (PFloat 0.5) (PFloat 1.0))%list.
Proof.
  destruct (sphere_size_is_printed_whole (PDict wide_ball_fields)
              (PDict [("type", PStr "sphere");
                      ("size", PList [PFloat 0.02; PFloat 0.03])])
              (PList [PFloat 0.02; PFloat 0.03]) grey (PStr "ball")
              (PFloat 0.5) (PFloat 0.5) (PFloat 0.5) (PFloat 1.0)
              eq_refl eq_refl eq_refl eq_refl eq_refl
              eq_refl eq_refl eq_refl eq_refl)
    as [Hrun Htext].
  rewrite Hrun. unfold sphere_line.
  rewrite (Htext [PFloat 0.02; PFloat 0.03] eq_refl).
  vm_compute. reflexivity.
Defined.

(** X7: a colour that is a list of fewer than four entries, red, green
    and blue with no alpha say, makes the visual generator raise IndexError,
    sound though the geometry is. *)
Theorem short_colour_raises
  (body geom geom_type name : value) (shape : list string)
  (entries : list value) :
  get body "geometry" (PDict []) = inr geom ->
  get geom "type" (PStr "box") = inr geom_type ->
  geometry_lines geom geom_type ["    <visual>"] = inr shape ->
  get geom "visual_rgba" grey = inr (PList entries) ->
  getitem body "name" = inr name ->
  (List.length entries < 4)%nat ->
  generate_visual body = inl IndexError.
Proof.
  intros Hgeom Htype Hshape Hrgba Hname Hshort.
  unfold generate_visual.
  rewrite Hgeom, bind_return, Htype, bind_return, Hshape, bind_return.
  change (PList [PFloat 0.5; PFloat 0.5; PFloat 0.5; PFloat 1.0]) with grey.
  rewrite Hrgba, bind_return, Hname, bind_return.
  destruct entries as [| r [| g [| b [| a more]]]]; try reflexivity.
  simpl in Hshort. lia.
Qed.

Lemma short_colour_raises_witness :
  generate_visual (PDict opaque_fields) = inl IndexError.
Proof.
  apply (short_colour_raises (PDict opaque_fields)
           (PDict [("type", PStr "sphere"); ("size", PFloat 0.1);
                   ("visual_rgba", PList [PInt 1; PInt 0; PInt 0])])
           (PStr "sphere") (PStr "head")
           (geometry_block (sphere_line (PFloat 0.1)))
           [PInt 1; PInt 0; PInt 0]);
    try reflexivity.
  simpl. lia.
Defined.

(** ** Entries that are missing or of the wrong kind *)

Lemma getitem_missing (d : list (string * value)) (key : string) :
  lookup key d = None -> getitem (PDict d) key = inl (KeyError key).
Proof. intros H. unfold getitem. rewrite H. reflexivity. Qed.

Lemma getitem_present (d : list (string * value)) (key : string) :
  lookup key d <> None -> exists v, getitem (PDict d) key = inr v.
Proof.
  intros H. unfold getitem. destruct (lookup key d) as [v |]; [eauto |].
  exfalso. apply H. reflexivity.
Qed.

(** X8: of the six tensor entries, the first one missing in the order ixx,
    ixy, ixz, iyy, iyz, izz is the one the KeyError of the inertial
    generator names; entries after it are not looked at. *)
Theorem first_missing_tensor_entry_is_reported
  (body mass : value) (entries : list (string * value))
  (before after : list string) (key : string) :
  getitem body "mass" = inr mass ->
  getitem body "inertia" = inr (PDict entries) ->
  tensor_keys = (before ++ key :: after)%list ->
  Forall (fun k => lookup k entries <> None) before ->
  lookup key entries = None ->
  generate_inertial body = inl (KeyError key).
Proof.
  intros Hmass Hinertia Hkeys Hbefore Hkey.
  unfold generate_inertial. rewrite Hmass, bind_return.
  unfold tensor_keys in Hkeys.
  repeat (destruct before as [| ? before];
          [ injection Hkeys as <- _;
            rewrite ?Hinertia, ?bind_return, (getitem_missing entries _ Hkey);
            reflexivity
          | injection Hkeys as <- Hkeys;
            let v := fresh "v" in
            let Hv := fresh "Hv" in
            destruct (getitem_present entries _ (Forall_inv Hbefore))
              as (v & Hv);
            apply Forall_inv_tail in Hbefore;
            rewrite ?Hinertia, ?bind_return, Hv, ?bind_return ]).
  destruct before; discriminate Hkeys.
Qed.

Lemma first_missing_tensor_entry_is_reported_witness :
  generate_inertial (PDict holed_fields) = inl (KeyError "iyy").
Proof.
  apply (first_missing_tensor_entry_is_reported (PDict holed_fields) (PInt 1)
           [("ixx", PInt 0); ("ixy", PInt 0); ("ixz", PInt 0);
            ("iyz", PInt 0); ("izz", PInt 0)]
           ["ixx"; "ixy"; "ixz"] ["iyz"; "izz"] "iyy");
    try reflexivity.
  repeat constructor; discriminate.
Defined.

(** X9: a named segment needs a joint that is a mapping with a type, and
    the segment generator says so before it looks at mass, inertia or
    geometry: no joint entry raises KeyError for joint, a joint that is no
    mapping (the type written as a word, say) raises TypeError, a joint
    mapping with no type raises KeyError for type. *)
Theorem segment_needs_a_typed_joint
  (fields : list (string * value)) (parent_name seg_name : value) :
  lookup "name" fields = Some seg_name ->
  (lookup "joint" fields = None ->
   generate_segment_urdf (PDict fields) parent_name = inl (KeyError "joint"))
  /\ (forall joint, lookup "joint" fields = Some joint ->
                    is_dict joint = false ->
                    generate_segment_urdf (PDict fields) parent_name
                    = inl TypeError)
  /\ (forall joint, lookup "joint" fields = Some (PDict joint) ->
                    lookup "type" joint = None ->
                    generate_segment_urdf (PDict fields) parent_name
                    = inl (KeyError "type")).
Proof.
  intros Hname.
  assert (Hn : getitem (PDict fields) "name" = inr seg_name)
    by (unfold getitem; rewrite Hname; reflexivity).
  unfold generate_segment_urdf. rewrite Hn, bind_return.
  split; [| split].
  - intros Hjoint. rewrite (getitem_missing fields "joint" Hjoint). reflexivity.
  - intros joint Hjoint Hdict. unfold getitem at 1. rewrite Hjoint, bind_return.
    destruct joint; try discriminate Hdict; reflexivity.
  - intros joint Hjoint Htype. unfold getitem at 1. rewrite Hjoint, bind_return.
    rewrite (getitem_missing joint "type" Htype). reflexivity.
Qed.

Lemma segment_needs_a_typed_joint_witness :
  generate_segment_urdf jointless (PStr "base") = inl (KeyError "joint")
  /\ generate_segment_urdf worded (PStr "base") = inl TypeError
  /\ generate_segment_urdf typeless (PStr "base") = inl (KeyError "type").
Proof.
  split; [| split].
  - apply (segment_needs_a_typed_joint
             [("name", PStr "arm"); ("mass", PInt 1); ("inertia", zero_inertia)]
             (PStr "base") (PStr "arm")); reflexivity.
  - apply (proj1 (proj2 (segment_needs_a_typed_joint
             [("name", PStr "arm"); ("mass", PInt 1); ("inertia", zero_inertia);
              ("joint", PStr "revolute")]
             (PStr "base") (PStr "arm") eq_refl)) (PStr "revolute"));
      reflexivity.
  - apply (proj2 (proj2 (segment_needs_a_typed_joint
             [("name", PStr "arm"); ("mass", PInt 1); ("inertia", zero_inertia);
              ("joint", PDict [("axis", PList [PInt 0; PInt 0; PInt 1])])]
             (PStr "base") (PStr "arm") eq_refl))
             [("axis", PList [PInt 0; PInt 0; PInt 1])]);
      reflexivity.
Defined.

(** X10: an axis that is a list of fewer than three entries makes the
    segment generator raise IndexError, before the limits, the inertia and
    the geometry of the segment are looked at. *)
Theorem short_axis_raises
  (segment parent_name seg_name joint_type : value)
  (joint : list (string * value)) (entries : list value) :
  getitem segment "name" = inr seg_name ->
  getitem segment "joint" = inr (PDict joint) ->
  lookup "type" joint = Some joint_type ->
  lookup "axis" joint = Some (PList entries) ->
  (List.length entries < 3)%nat ->
  generate_segment_urdf segment parent_name = inl IndexError.
Proof.
  intros Hname Hjoint Htype Haxis Hshort.
  assert (Ht : getitem (PDict joint) "type" = inr joint_type)
    by (unfold getitem; rewrite Htype; reflexivity).
  assert (Ha : getitem (PDict joint) "axis" = inr (PList entries))
    by (unfold getitem; rewrite Haxis; reflexivity).
  unfold generate_segment_urdf, axis_lines.
  rewrite Hname, Hjoint.
  repeat first [ rewrite bind_return | rewrite Ht | rewrite Ha
               | rewrite contains_dict, Haxis ].
  destruct entries as [| x [| y [| z more]]]; try reflexivity.
  simpl in Hshort. lia.
Qed.

Lemma short_axis_raises_witness :
  generate_segment_urdf short_axis (PStr "base") = inl IndexError.
Proof.
  apply (short_axis_raises short_axis (PStr "base") (PStr "arm")
           (PStr "revolute")
           [("type", PStr "revolute"); ("axis", PList [PInt 0; PInt 1])]
           [PInt 0; PInt 1]);
    try reflexivity.
  simpl. lia.
Defined.

(** X11: of an axis that is a list of more than three entries, the first
    three are printed and the rest dropped without a word. *)
Theorem long_axis_is_cut
  (segment parent_name seg_name joint_type x y z : value)
  (joint : list (string * value)) (inertial visual : list string)
  (rest : list value) :
  getitem segment "name" = inr seg_name ->
  getitem segment "joint" = inr (PDict joint) ->
  lookup "type" joint = Some joint_type ->
  lookup "axis" joint = Some (PList (x :: y :: z :: rest)) ->
  generate_inertial segment = inr inertial ->
  generate_visual segment = inr visual ->
  generate_segment_urdf segment parent_name
  = inr (segment_block parent_name seg_name joint_type
           (axis_line x y z :: expected_limit (lookup "limits" joint))
           inertial visual).
Proof.
  intros Hname Hjoint Htype Haxis Hinertial Hvisual.
  apply (generate_segment_urdf_block segment parent_name seg_name
           (PDict joint) joint_type [axis_line x y z]
           (expected_limit (lookup "limits" joint)));
    try assumption.
  - unfold getitem. rewrite Htype. reflexivity.
  - intros lines.
    apply (axis_lines_present segment (PDict joint)
             (PList (x :: y :: z :: rest)));
      try reflexivity; try exact Hjoint.
    + rewrite contains_dict, Haxis. reflexivity.
    + unfold getitem. rewrite Haxis. reflexivity.
  - apply limit_lines_expected. exact Hjoint.
Qed.

Lemma long_axis_is_cut_witness :
  exists inertial visual,
    generate_segment_urdf long_axis (PStr "base")
    = inr (segment_block (PStr "base") (PStr "arm") (PStr "revolute")
             [axis_line (PInt 0) (PInt 0) (PInt 1)] inertial visual).
Proof.
  eexists. eexists.
  apply (long_axis_is_cut long_axis (PStr "base") (PStr "arm")
           (PStr "revolute") (PInt 0) (PInt 0) (PInt 1) long_axis_joint
           _ _ [PInt 9]);
    reflexivity.
Defined.

(** ** Exceptions end the export *)

(** X12: without a root there is no export: a loaded model that is no
    mapping raises TypeError, a mapping with no root raises KeyError for
    root, and a root mapping with no name raises KeyError for name, before
    its mass, inertia and geometry are looked at. *)
Theorem export_needs_a_named_root (self : t) (path : string)
  (fs : filesystem) :
  (is_dict (spec self) = false -> export self path fs = inl TypeError)
  /\ (forall fields, spec self = PDict fields ->
                     lookup "root" fields = None ->
                     export self path fs = inl (KeyError "root"))
  /\ (forall fields root, spec self = PDict fields ->
                          lookup "root" fields = Some (PDict root) ->
                          lookup "name" root = None ->
                          export self path fs = inl (KeyError "name")).
Proof.
  unfold export, generate_urdf, generate_urdf_lines.
  split; [| split].
  - intros H. destruct (spec self); try discriminate H; reflexivity.
  - intros fields -> Hroot.
    rewrite (getitem_missing fields "root" Hroot). reflexivity.
  - intros fields root -> Hroot Hname.
    unfold getitem at 1. rewrite Hroot, bind_return.
    rewrite (getitem_missing root "name" Hname). reflexivity.
Qed.

Lemma segments_loop_raises (root root_name bad : value)
  (good rest : list value) (blocks : list (list string)) (e : exn) :
  getitem root "name" = inr root_name ->
  blocks_of root_name good blocks ->
  generate_segment_urdf bad root_name = inl e ->
  forall lines,
    segments_loop root (good ++ bad :: rest)%list lines = inl e.
Proof.
  intros Hname Hgood Hbad.
  induction Hgood as [| segment block good blocks Hsegment _ IH]; intros lines.
  - simpl app. rewrite segments_loop_cons, Hname, bind_return, Hbad.
    reflexivity.
  - simpl app.
    rewrite segments_loop_cons, Hname, bind_return, Hsegment, bind_return.
    apply IH.
Qed.

(** X13: when the root and the first segments are sound and the next
    segment raises, the export raises that exception: the lines made so far
    are dropped, the segments after it are not looked at, and the files
    stay as they were. *)
Theorem failing_segment_ends_the_export
  (self : t) (root root_name segments_value bad : value)
  (inertial visual : list string) (good rest : list value)
  (blocks : list (list string)) (e : exn)
  (path : string) (fs : filesystem) :
  getitem (spec self) "root" = inr root ->
  getitem root "name" = inr root_name ->
  generate_inertial root = inr inertial ->
  generate_visual root = inr visual ->
  get (spec self) "segments" (PList []) = inr segments_value ->
  iter segments_value = inr (good ++ bad :: rest)%list ->
  blocks_of root_name good blocks ->
  generate_segment_urdf bad root_name = inl e ->
  export self path fs = inl e.
Proof.
  intros Hroot Hname Hinertial Hvisual Hsegments Hiter Hgood Hbad.
  unfold export, generate_urdf, generate_urdf_lines.
  rewrite Hroot, bind_return, Hname, bind_return, Hinertial, bind_return.
  rewrite Hvisual, bind_return, Hsegments, bind_return, Hiter, bind_return.
  rewrite (segments_loop_raises root root_name bad good rest blocks e
             Hname Hgood Hbad).
  reflexivity.
Qed.

Lemma failing_segment_ends_the_export_witness :
  export broken_chain "golfer.urdf" no_files = inl (KeyError "joint").
Proof.
  eapply (failing_segment_ends_the_export broken_chain (PDict bare_fields)
            (PStr "base") (PList [arm; jointless; hand]) jointless
            (inertial_block (PInt 5) (PInt 0) (PInt 0) (PInt 0)
               (PInt 0) (PInt 0) (PInt 0))
            (geometry_block default_box_line
             ++ default_material (PStr "base"))%list
            [arm] [hand]);
    try reflexivity.
  constructor; [reflexivity | constructor].
Defined.

(** X14: a segments entry that is there but cannot be walked over (left
    empty in the YAML source, a number, a truth value) makes the export
    raise TypeError once the root's link is made; it is not taken for an
    empty list. *)
Theorem segments_must_be_iterable
  (self : t) (root root_name segments_value : value)
  (inertial visual : list string) (path : string) (fs : filesystem) :
  getitem (spec self) "root" = inr root ->
  getitem root "name" = inr root_name ->
  generate_inertial root = inr inertial ->
  generate_visual root = inr visual ->
  get (spec self) "segments" (PList []) = inr segments_value ->
  not_iterable segments_value = true ->
  export self path fs = inl TypeError.
Proof.
  intros Hroot Hname Hinertial Hvisual Hsegments Hnot.
  unfold export, generate_urdf, generate_urdf_lines.
  rewrite Hroot, bind_return, Hname, bind_return, Hinertial, bind_return.
  rewrite Hvisual, bind_return, Hsegments, bind_return.
  destruct segments_value; try discriminate Hnot; reflexivity.
Qed.

Lemma segments_must_be_iterable_witness :
  export blank_segments "golfer.urdf" no_files = inl TypeError.
Proof.
  apply (segments_must_be_iterable blank_segments (PDict bare_fields)
           (PStr "base") PNone
           (inertial_block (PInt 5) (PInt 0) (PInt 0) (PInt 0)
              (PInt 0) (PInt 0) (PInt 0))
           (geometry_block default_box_line
            ++ default_material (PStr "base"))%list);
    reflexivity.
Defined.

(** ** One link for each body, one joint for each segment *)

Lemma count_lines_app (prefix : string) (l1 l2 : list string) :
  count_lines prefix (l1 ++ l2)%list
  = (count_lines prefix l1 + count_lines prefix l2)%nat.
Proof. unfold count_lines. rewrite filter_app, length_app. reflexivity. Qed.

(** An indented line opens nothing at the level of links and joints. *)
Lemma indented_is_no_tag (tag line : string) :
  indented line = true ->
  starts_with (String " " (String " " (String "<" tag))) line = false.
Proof.
  unfold indented. intros H.
  destruct line as [| c1 line]; cbn [starts_with] in H; [discriminate H |].
  apply andb_prop in H as [_ H].
  destruct line as [| c2 line]; cbn [starts_with] in H; [discriminate H |].
  apply andb_prop in H as [_ H].
  destruct line as [| c3 line]; cbn [starts_with] in H; [discriminate H |].
  apply andb_prop in H as [H _]. apply Ascii.eqb_eq in H. subst c3.
  cbn [starts_with].
  destruct (Ascii.eqb " " c1), (Ascii.eqb " " c2); reflexivity.
Qed.

Lemma count_lines_indented (tag : string) (lines : list string) :
  Forall (fun line => indented line = true) lines ->
  count_lines (String " " (String " " (String "<" tag))) lines = 0%nat.
Proof.
  unfold count_lines. induction 1 as [| line lines Hline _ IH].
  - reflexivity.
  - cbn [filter]. rewrite (indented_is_no_tag tag line Hline). exact IH.
Qed.

Lemma generate_inertial_indented (body : value) (lines : list string) :
  generate_inertial body = inr lines ->
  Forall (fun line => indented line = true) lines.
Proof.
  unfold generate_inertial. intros H. unbind_all H. injection H as <-.
  unfold append. cbn [app].
  repeat (constructor; [reflexivity |]). constructor.
Qed.

Lemma cylinder_lines_indented (geom : value) (lines out : list string) :
  cylinder_lines geom lines = inr out ->
  exists more, out = (lines ++ more)%list
               /\ Forall (fun line => indented line = true) more.
Proof.
  unfold cylinder_lines. intros H. unbind_all H. injection H as <-.
  unfold append. rewrite <- !app_assoc. eexists. split; [reflexivity |].
  cbn [app]. repeat (constructor; [reflexivity |]). constructor.
Qed.

Lemma geometry_lines_indented (geom geom_type : value)
  (lines out : list string) :
  geometry_lines geom geom_type lines = inr out ->
  exists more, out = (lines ++ more)%list
               /\ Forall (fun line => indented line = true) more.
Proof.
  unfold geometry_lines. intros H.
  destruct (eq_str geom_type "box").
  { unbind_all H. injection H as <-.
    unfold append. rewrite <- !app_assoc. eexists. split; [reflexivity |].
    cbn [app]. repeat (constructor; [reflexivity |]). constructor. }
  destruct (eq_str geom_type "sphere").
  { unbind_all H. injection H as <-.
    unfold append. rewrite <- !app_assoc. eexists. split; [reflexivity |].
    cbn [app]. repeat (constructor; [reflexivity |]). constructor. }
  destruct (eq_str geom_type "cylinder");
    [apply cylinder_lines_indented in H; exact H |].
  destruct (eq_str geom_type "capsule");
    [apply cylinder_lines_indented in H; exact H |].
  injection H as <-. exists []. rewrite app_nil_r. split; constructor.
Qed.

Lemma generate_visual_indented (body : value) (lines : list string) :
  generate_visual body = inr lines ->
  Forall (fun line => indented line = true) lines.
Proof.
  intros H. apply generate_visual_inv in H
    as (geom & gt & shape & rgba & name & r & g & b & a
        & _ & _ & Hshape & _ & _ & _ & _ & _ & _ & ->).
  apply geometry_lines_indented in Hshape as (more & -> & Hmore).
  rewrite !Forall_app. repeat split.
  - repeat constructor.
  - exact Hmore.
  - unfold material_block. repeat (constructor; [reflexivity |]). constructor.
Qed.

Lemma axis_lines_indented (segment : value) (lines out : list string) :
  axis_lines segment lines = inr out ->
  exists more, out = (lines ++ more)%list
               /\ Forall (fun line => indented line = true) more.
Proof.
  unfold axis_lines. intros H.
  unbind H as joint Hjoint. unbind H as has_axis Hhas.
  destruct has_axis.
  - unbind_all H. injection H as <-.
    eexists. split; [reflexivity |]. repeat constructor.
  - injection H as <-. exists []. rewrite app_nil_r. split; constructor.
Qed.

Lemma limit_lines_indented (segment : value) (lines out : list string) :
  limit_lines segment lines = inr out ->
  exists more, out = (lines ++ more)%list
               /\ Forall (fun line => indented line = true) more.
Proof.
  unfold limit_lines. intros H.
  unbind H as joint Hjoint. unbind H as has_limits Hhas.
  destruct has_limits.
  - unbind H as joint' Hjoint'. unbind H as limits Hlimits.
    destruct (is_list_of_two limits).
    + unbind_all H. injection H as <-.
      eexists. split; [reflexivity |]. repeat constructor.
    + injection H as <-. exists []. rewrite app_nil_r. split; constructor.
  - injection H as <-. exists []. rewrite app_nil_r. split; constructor.
Qed.

(** A segment's block opens one joint and one link. *)
Lemma segment_block_counts (segment parent_name : value)
  (block : list string) :
  generate_segment_urdf segment parent_name = inr block ->
  count_lines "  <joint " block = 1%nat /\ count_lines "  <link " block = 1%nat.
Proof.
  unfold generate_segment_urdf. intros H.
  unbind H as seg_name Hname. unbind H as joint Hjoint.
  unbind H as joint_type Htype. unbind H as l1 Haxis. unbind H as l2 Hlimit.
  unbind H as inertial Hinertial. unbind H as visual Hvisual.
  injection H as <-.
  apply axis_lines_indented in Haxis as (ex1 & -> & F1).
  apply limit_lines_indented in Hlimit as (ex2 & -> & F2).
  apply generate_inertial_indented in Hinertial.
  apply generate_visual_indented in Hvisual.
  unfold append, extend. rewrite !count_lines_app.
  rewrite !(count_lines_indented "joint " ex1), !(count_lines_indented "joint " ex2),
    !(count_lines_indented "joint " inertial),
    !(count_lines_indented "joint " visual) by assumption.
  rewrite !(count_lines_indented "link " ex1), !(count_lines_indented "link " ex2),
    !(count_lines_indented "link " inertial),
    !(count_lines_indented "link " visual) by assumption.
  split; reflexivity.
Qed.

Lemma blocks_count (parent_name : value) (segments : list value)
  (blocks : list (list string)) :
  blocks_of parent_name segments blocks ->
  count_lines "  <joint " (List.concat blocks) = List.length segments
  /\ count_lines "  <link " (List.concat blocks) = List.length segments.
Proof.
  intros H. induction H as [| segment block segments blocks Hblock _ IH].
  - split; reflexivity.
  - destruct (segment_block_counts segment parent_name block Hblock)
      as [Hj Hl].
    destruct IH as [IHj IHl].
    cbn [List.concat List.length]. rewrite !count_lines_app, Hj, Hl, IHj, IHl.
    split; reflexivity.
Qed.

(** ** Line breaks *)

Lemma one_line_app (a b : string) :
  one_line (a ++ b) = one_line a && one_line b.
Proof.
  induction a as [| c a IH]; [reflexivity |].
  cbn [String.append one_line]. rewrite IH, andb_assoc. reflexivity.
Qed.

Lemma one_line_cons (c : ascii) (rest : string) :
  Ascii.eqb c newline = false -> one_line (String c rest) = one_line rest.
Proof. intros H. cbn [one_line]. rewrite H. reflexivity. Qed.

Lemma one_line_concat (sep : string) (items : list string) :
  one_line sep = true ->
  Forall (fun item => one_line item = true) items ->
  one_line (String.concat sep items) = true.
Proof.
  intros Hsep H. induction H as [| item rest Hitem Hrest IH]; [reflexivity |].
  destruct rest as [| next rest]; [exact Hitem |].
  rewrite concat_cons, !one_line_app, Hitem, Hsep, IH. reflexivity.
Qed.

Lemma one_line_substring (s : string) :
  one_line s = true -> forall n m, one_line (String.substring n m s) = true.
Proof.
  induction s as [| c s IH]; intros H n m.
  - destruct n, m; reflexivity.
  - cbn [one_line] in H. apply andb_prop in H as [Hc Hs].
    destruct n as [| n]; cbn [String.substring].
    + destruct m as [| m]; [reflexivity |].
      cbn [one_line]. rewrite Hc, (IH Hs). reflexivity.
    + apply (IH Hs).
Qed.

Lemma one_line_zeros (n : nat) : one_line (zeros n) = true.
Proof. induction n as [| n IH]; [reflexivity | exact IH]. Qed.

Lemma one_line_digits (d : Decimal.uint) :
  one_line (NilEmpty.string_of_uint d) = true.
Proof. induction d; simpl; auto. Qed.

Lemma one_line_int_str (z : Z) : one_line (int_str z) = true.
Proof.
  unfold int_str, NilZero.string_of_int, NilZero.string_of_uint.
  destruct (Z.to_int z) as [d | d]; destruct d;
    first [reflexivity | apply (one_line_digits (_ d))
          | cbn [one_line]; apply (one_line_digits (_ d))].
Qed.

Lemma one_line_float_layout (digits decpt : Z) :
  one_line (float_layout digits decpt) = true.
Proof.
  pose proof (one_line_int_str digits) as Hds.
  unfold float_layout. cbv zeta.
  repeat match goal with
         | |- context [if ?c then _ else _] => destruct c
         end;
    rewrite ?one_line_app, ?one_line_zeros, ?one_line_int_str,
      ?(one_line_substring _ Hds);
    reflexivity.
Qed.

Lemma one_line_float_repr (f : float) : one_line (float_repr f) = true.
Proof.
  unfold float_repr.
  destruct (Prim2SF f) as [neg | neg | | neg m e]; try (destruct neg; reflexivity);
    try reflexivity.
  destruct (shortest (Z.pos m) e) as [digits decpt].
  rewrite one_line_app, one_line_float_layout. destruct neg; reflexivity.
Qed.

Lemma one_line_hex_digit (n : nat) : one_line (hex_digit n) = true.
Proof.
  unfold hex_digit.
  do 16 (destruct n as [| n]; [reflexivity |]). reflexivity.
Qed.

Lemma one_line_repr_char (quote c : ascii) :
  Ascii.eqb quote newline = false -> one_line (repr_char quote c) = true.
Proof.
  intros Hquote. unfold repr_char. cbv zeta.
  destruct (Ascii.eqb c quote) eqn:Eq.
  { apply Ascii.eqb_eq in Eq. subst c.
    unfold bs, char_str. cbn [String.append one_line].
    rewrite Hquote. reflexivity. }
  destruct (nat_of_ascii c =? 92)%nat; [reflexivity |].
  destruct (nat_of_ascii c =? 9)%nat; [reflexivity |].
  destruct (nat_of_ascii c =? 10)%nat; [reflexivity |].
  destruct (nat_of_ascii c =? 13)%nat; [reflexivity |].
  destruct (printable (nat_of_ascii c)) eqn:Ep.
  - unfold char_str. cbn [one_line].
    destruct (Ascii.eqb c newline) eqn:En; [| reflexivity].
    apply Ascii.eqb_eq in En. subst c. discriminate Ep.
  - rewrite !one_line_app, !one_line_hex_digit. reflexivity.
Qed.

Lemma one_line_repr_chars (quote : ascii) (s : string) :
  Ascii.eqb quote newline = false -> one_line (repr_chars quote s) = true.
Proof.
  intros Hquote. induction s as [| c s IH]; [reflexivity |].
  cbn [repr_chars]. rewrite one_line_app, IH, (one_line_repr_char _ _ Hquote).
  reflexivity.
Qed.

Lemma one_line_str_repr (s : string) : one_line (str_repr s) = true.
Proof.
  unfold str_repr. cbv zeta.
  destruct (has_char "'"%char s && negb (has_char (ascii_of_nat 34) s));
    rewrite !one_line_app, one_line_repr_chars by reflexivity; reflexivity.
Qed.

(** Induction on a value, with every element of a list and every value of a
    mapping in hand. *)
Section ValueInduction.

Variable P : value -> Prop.
Hypothesis HNone : P PNone.
Hypothesis HBool : forall b, P (PBool b).
Hypothesis HInt : forall z, P (PInt z).
Hypothesis HFloat : forall f, P (PFloat f).
Hypothesis HStr : forall s, P (PStr s).
Hypothesis HList : forall l, Forall P l -> P (PList l).
Hypothesis HDict : forall d, Forall (fun kv => P (snd kv)) d -> P (PDict d).

Fixpoint value_nested_ind (v : value) : P v :=
  match v with
  | PNone => HNone
  | PBool b => HBool b
  | PInt z => HInt z
  | PFloat f => HFloat f
  | PStr s => HStr s
  | PList l =>
      HList l
        ((fix each (l : list value) : Forall P l :=
            match l with
            | [] => Forall_nil P
            | x :: rest => Forall_cons x (value_nested_ind x) (each rest)
            end) l)
  | PDict d =>
      HDict d
        ((fix each (d : list (string * value))
            : Forall (fun kv => P (snd kv)) d :=
            match d with
            | [] => Forall_nil _
            | kv :: rest =>
                Forall_cons kv (value_nested_ind (snd kv)) (each rest)
            end) d)
  end.

End ValueInduction.

(** [repr] escapes the line breaks of the strings it shows. *)
Lemma one_line_repr (v : value) : one_line (repr v) = true.
Proof.
  induction v as [| b | z | f | s | l IH | d IH] using value_nested_ind.
  - reflexivity.
  - destruct b; reflexivity.
  - apply one_line_int_str.
  - apply one_line_float_repr.
  - apply one_line_str_repr.
  - cbn [repr]. rewrite !one_line_app, one_line_concat; [reflexivity .. |].
    apply Forall_map. exact IH.
  - cbn [repr]. rewrite !one_line_app, one_line_concat; [reflexivity .. |].
    apply Forall_map. eapply Forall_impl; [| exact IH].
    intros [k x] Hx. cbn [fst snd] in *.
    rewrite !one_line_app, one_line_str_repr, Hx. reflexivity.
Qed.

(** So only a string that holds a line break prints one. *)
Lemma plain_str (v : value) : plain v = true -> one_line (str v) = true.
Proof.
  destruct v; intros H; try apply one_line_repr. exact H.
Qed.

Lemma lookup_plain (key : string) (d : list (string * value)) (x : value) :
  plain (PDict d) = true -> lookup key d = Some x -> plain x = true.
Proof.
  cbn [plain]. induction d as [| [k v] d IH]; intros Hp H; [discriminate H |].
  cbn [forallb fst snd] in Hp. apply andb_prop in Hp as [Hkv Hd].
  apply andb_prop in Hkv as [_ Hv].
  cbn [lookup] in H. destruct (String.eqb key k).
  - injection H as <-. exact Hv.
  - apply (IH Hd H).
Qed.

Lemma getitem_plain (obj : value) (key : string) (x : value) :
  plain obj = true -> getitem obj key = inr x -> plain x = true.
Proof.
  intros Hp H. destruct obj; try discriminate H.
  unfold getitem in H. destruct (lookup key d) as [v |] eqn:E;
    [| discriminate H].
  injection H as <-. apply (lookup_plain key d v Hp E).
Qed.

Lemma get_plain (obj : value) (key : string) (default x : value) :
  plain obj = true -> get obj key default = inr x ->
  plain default = true -> plain x = true.
Proof.
  intros Hp H Hd. destruct obj; try discriminate H.
  unfold get in H. destruct (lookup key d) as [v |] eqn:E.
  - injection H as <-. apply (lookup_plain key d v Hp E).
  - injection H as <-. exact Hd.
Qed.

Lemma get_one_line (s : string) :
  one_line s = true ->
  forall i c, String.get i s = Some c -> Ascii.eqb c newline = false.
Proof.
  induction s as [| c0 s IH]; intros H i c Hget; [discriminate Hget |].
  cbn [one_line] in H. apply andb_prop in H as [Hc Hs].
  destruct i as [| i]; cbn [String.get] in Hget.
  - injection Hget as <-. apply negb_true_iff. exact Hc.
  - apply (IH Hs i c Hget).
Qed.

Lemma index_plain (obj : value) (i : nat) (x : value) :
  plain obj = true -> index obj i = inr x -> plain x = true.
Proof.
  intros Hp H. destruct obj; try discriminate H; unfold index in H.
  - destruct (String.get i s) as [c |] eqn:E; [| discriminate H].
    injection H as <-. cbn [plain char_str one_line].
    rewrite (get_one_line s Hp i c E). reflexivity.
  - destruct (nth_error l i) as [v |] eqn:E; [| discriminate H].
    injection H as <-. cbn [plain] in Hp.
    rewrite forallb_forall in Hp. apply Hp. apply (nth_error_In l i E).
Qed.

Lemma mul2_plain (obj x : value) :
  plain obj = true -> mul2 obj = inr x -> plain x = true.
Proof.
  intros Hp H. destruct obj; try discriminate H; injection H as <-;
    try reflexivity; cbn [plain] in *.
  - rewrite one_line_app, Hp. reflexivity.
  - rewrite forallb_app, Hp. reflexivity.
Qed.

Lemma chars_plain (s : string) :
  one_line s = true -> forallb plain (chars s) = true.
Proof.
  induction s as [| c s IH]; intros H; [reflexivity |].
  cbn [one_line] in H. apply andb_prop in H as [Hc Hs].
  cbn [chars forallb plain char_str one_line]. rewrite Hc, (IH Hs).
  reflexivity.
Qed.

Lemma iter_plain (obj : value) (items : list value) :
  plain obj = true -> iter obj = inr items -> forallb plain items = true.
Proof.
  intros Hp H. destruct obj; try discriminate H; injection H as <-.
  - apply chars_plain. exact Hp.
  - exact Hp.
  - cbn [plain] in Hp. induction d as [| [k v] d IH]; [reflexivity |].
    cbn [forallb fst snd] in Hp. apply andb_prop in Hp as [Hkv Hd].
    apply andb_prop in Hkv as [Hk _].
    cbn [map forallb fst plain]. rewrite Hk. apply (IH Hd).
Qed.

(** Gathers what is known to be plain among the values read so far. *)
Ltac plains :=
  repeat match goal with
         | Hp : plain ?o = true, H : getitem ?o _ = inr ?x |- _ =>
             lazymatch goal with
             | _ : plain x = true |- _ => fail
             | _ => pose proof (getitem_plain _ _ _ Hp H)
             end
         | Hp : plain ?o = true, H : get ?o _ _ = inr ?x |- _ =>
             lazymatch goal with
             | _ : plain x = true |- _ => fail
             | _ => pose proof (get_plain _ _ _ _ Hp H eq_refl)
             end
         | Hp : plain ?o = true, H : index ?o _ = inr ?x |- _ =>
             lazymatch goal with
             | _ : plain x = true |- _ => fail
             | _ => pose proof (index_plain _ _ _ Hp H)
             end
         | Hp : plain ?o = true, H : mul2 ?o = inr ?x |- _ =>
             lazymatch goal with
             | _ : plain x = true |- _ => fail
             | _ => pose proof (mul2_plain _ _ Hp H)
             end
         end.

(** A line written from fixed texts and plain values is one line. *)
Ltac line_is_one :=
  cbv beta delta [material_line link_line quoted];
  repeat first [ rewrite one_line_cons by reflexivity
               | rewrite one_line_app
               | rewrite plain_str by assumption ];
  reflexivity.

Ltac each_line_one :=
  cbn [app]; repeat (constructor; [line_is_one |]); constructor.

Lemma generate_inertial_one_line (body : value) (lines : list string) :
  plain body = true ->
  generate_inertial body = inr lines ->
  Forall (fun line => one_line line = true) lines.
Proof.
  unfold generate_inertial. intros Hp H. unbind_all H. injection H as <-.
  plains. unfold append. each_line_one.
Qed.

Lemma cylinder_lines_one_line (geom : value) (lines out : list string) :
  plain geom = true ->
  cylinder_lines geom lines = inr out ->
  exists more, out = (lines ++ more)%list
               /\ Forall (fun line => one_line line = true) more.
Proof.
  unfold cylinder_lines. intros Hp H. unbind_all H. injection H as <-.
  plains. unfold append. rewrite <- !app_assoc.
  eexists. split; [reflexivity |]. each_line_one.
Qed.

Lemma geometry_lines_one_line (geom geom_type : value)
  (lines out : list string) :
  plain geom = true ->
  geometry_lines geom geom_type lines = inr out ->
  exists more, out = (lines ++ more)%list
               /\ Forall (fun line => one_line line = true) more.
Proof.
  unfold geometry_lines. intros Hp H.
  destruct (eq_str geom_type "box").
  { unbind_all H. injection H as <-. plains.
    unfold append. rewrite <- !app_assoc. eexists. split; [reflexivity |].
    each_line_one. }
  destruct (eq_str geom_type "sphere").
  { unbind_all H. injection H as <-. plains.
    unfold append. rewrite <- !app_assoc. eexists. split; [reflexivity |].
    each_line_one. }
  destruct (eq_str geom_type "cylinder");
    [apply (cylinder_lines_one_line geom lines out Hp H) |].
  destruct (eq_str geom_type "capsule");
    [apply (cylinder_lines_one_line geom lines out Hp H) |].
  injection H as <-. exists []. rewrite app_nil_r. split; constructor.
Qed.

Lemma generate_visual_one_line (body : value) (lines : list string) :
  plain body = true ->
  generate_visual body = inr lines ->
  Forall (fun line => one_line line = true) lines.
Proof.
  intros Hp H. apply generate_visual_inv in H
    as (geom & gt & shape & rgba & name & r & g & b & a
        & Hgeom & _ & Hshape & Hrgba & Hname & Hr & Hg & Hb & Ha & ->).
  plains.
  apply geometry_lines_one_line in Hshape as (more & -> & Hmore);
    [| assumption].
  rewrite !Forall_app. repeat split.
  - repeat constructor.
  - exact Hmore.
  - unfold material_block. each_line_one.
Qed.

Lemma axis_lines_one_line (segment : value) (lines out : list string) :
  plain segment = true ->
  axis_lines segment lines = inr out ->
  exists more, out = (lines ++ more)%list
               /\ Forall (fun line => one_line line = true) more.
Proof.
  unfold axis_lines. intros Hp H.
  unbind H as joint Hjoint. unbind H as has_axis Hhas.
  destruct has_axis.
  - unbind_all H. injection H as <-. plains.
    eexists. split; [reflexivity |]. each_line_one.
  - injection H as <-. exists []. rewrite app_nil_r. split; constructor.
Qed.

Lemma limit_lines_one_line (segment : value) (lines out : list string) :
  plain segment = true ->
  limit_lines segment lines = inr out ->
  exists more, out = (lines ++ more)%list
               /\ Forall (fun line => one_line line = true) more.
Proof.
  unfold limit_lines. intros Hp H.
  unbind H as joint Hjoint. unbind H as has_limits Hhas.
  destruct has_limits.
  - unbind H as joint' Hjoint'. unbind H as limits Hlimits.
    destruct (is_list_of_two limits).
    + unbind_all H. injection H as <-. plains.
      eexists. split; [reflexivity |]. each_line_one.
    + injection H as <-. exists []. rewrite app_nil_r. split; constructor.
  - injection H as <-. exists []. rewrite app_nil_r. split; constructor.
Qed.

Lemma generate_segment_urdf_one_line (segment parent_name : value)
  (block : list string) :
  plain segment = true -> plain parent_name = true ->
  generate_segment_urdf segment parent_name = inr block ->
  Forall (fun line => one_line line = true) block.
Proof.
  unfold generate_segment_urdf. intros Hp Hparent H.
  unbind H as seg_name Hname. unbind H as joint Hjoint.
  unbind H as joint_type Htype. unbind H as l1 Haxis. unbind H as l2 Hlimit.
  unbind H as inertial Hinertial. unbind H as visual Hvisual.
  injection H as <-. plains.
  apply axis_lines_one_line in Haxis as (ex1 & -> & F1); [| assumption].
  apply limit_lines_one_line in Hlimit as (ex2 & -> & F2); [| assumption].
  apply generate_inertial_one_line in Hinertial; [| assumption].
  apply generate_visual_one_line in Hvisual; [| assumption].
  unfold append, extend. rewrite !Forall_app.
  repeat split; try assumption; each_line_one.
Qed.

Lemma blocks_one_line (parent_name : value) (segments : list value)
  (blocks : list (list string)) :
  plain parent_name = true ->
  forallb plain segments = true ->
  blocks_of parent_name segments blocks ->
  Forall (fun line => one_line line = true) (List.concat blocks).
Proof.
  intros Hparent Hp H.
  induction H as [| segment block segments blocks Hblock _ IH].
  - constructor.
  - cbn [forallb] in Hp. apply andb_prop in Hp as [Hsegment Hrest].
    cbn [List.concat]. apply Forall_app. split; [| exact (IH Hrest)].
    apply (generate_segment_urdf_one_line segment parent_name block
             Hsegment Hparent Hblock).
Qed.

(** No element of [lines] holds a line break when no string of the model
    does. *)
Lemma generate_urdf_lines_one_line (self : t) (lines : list string) :
  plain (spec self) = true ->
  generate_urdf_lines self = inr lines ->
  Forall (fun line => one_line line = true) lines.
Proof.
  intros Hp H. apply generate_urdf_lines_inv in H
    as (root & root_name & il & vl & sv & segs & blocks
        & Hroot & Hname & Hil & Hvl & Hs & Hi & Hb & ->).
  plains.
  apply generate_inertial_one_line in Hil; [| assumption].
  apply generate_visual_one_line in Hvl; [| assumption].
  apply blocks_one_line in Hb;
    [| assumption | apply (iter_plain sv segs); assumption].
  unfold document, header. rewrite !Forall_app.
  repeat split; try assumption; each_line_one.
Qed.

Lemma split_lines_one (line : string) :
  one_line line = true -> split_lines line = [line].
Proof.
  induction line as [| c line IH]; intros H; [reflexivity |].
  cbn [one_line] in H. apply andb_prop in H as [Hc Hline].
  apply negb_true_iff in Hc.
  cbn [split_lines]. rewrite Hc, (IH Hline). reflexivity.
Qed.

Lemma split_lines_app (line rest : string) :
  one_line line = true ->
  split_lines (line ++ nl ++ rest) = line :: split_lines rest.
Proof.
  induction line as [| c line IH]; intros H.
  - reflexivity.
  - cbn [one_line] in H. apply andb_prop in H as [Hc Hline].
    apply negb_true_iff in Hc.
    cbn [String.append split_lines]. rewrite Hc.
    change (line ++ String (ascii_of_nat 10) rest)%string
      with (line ++ nl ++ rest)%string.
    rewrite (IH Hline). reflexivity.
Qed.

(** Splitting at the line breaks gives back the lines that were joined,
    when none of them holds one. *)
Lemma split_lines_concat (lines : list string) :
  lines <> [] ->
  Forall (fun line => one_line line = true) lines ->
  split_lines (String.concat nl lines) = lines.
Proof.
  intros Hne H. induction H as [| line rest Hline Hrest IH];
    [contradiction |].
  destruct rest as [| next rest].
  - apply (split_lines_one line Hline).
  - rewrite concat_cons, (split_lines_app _ _ Hline), IH by discriminate.
    reflexivity.
Qed.

(** The lines of the text of a document are the lines the generators
    wrote, for a model with no line break in its strings. *)
Lemma document_lines (self : t) (doc : string) :
  plain (spec self) = true ->
  generate_urdf self = inr doc ->
  generate_urdf_lines self = inr (split_lines doc).
Proof.
  unfold generate_urdf. intros Hp H. unbind H as lines Hlines.
  injection H as <-.
  rewrite split_lines_concat; [exact Hlines | |].
  - apply generate_urdf_lines_inv in Hlines
      as (root & root_name & il & vl & sv & segs & blocks
          & _ & _ & _ & _ & _ & _ & _ & ->).
    unfold document, header. discriminate.
  - apply (generate_urdf_lines_one_line self lines Hp Hlines).
Qed.

Lemma link_and_joint_counts (self : t) (lines : list string) :
  generate_urdf_lines self = inr lines ->
  exists segments_value segments,
    get (spec self) "segments" (PList []) = inr segments_value
    /\ iter segments_value = inr segments
    /\ count_lines "  <link " lines = S (List.length segments)
    /\ count_lines "  <joint " lines = List.length segments.
Proof.
  intros H. apply generate_urdf_lines_inv in H
    as (root & root_name & il & vl & sv & segs & blocks
        & _ & _ & Hil & Hvl & Hs & Hi & Hb & ->).
  exists sv, segs. split; [exact Hs |]. split; [exact Hi |].
  apply generate_inertial_indented in Hil.
  apply generate_visual_indented in Hvl.
  destruct (blocks_count root_name segs blocks Hb) as [Hj Hl].
  unfold document. rewrite !count_lines_app, Hj, Hl.
  rewrite (count_lines_indented "link " il), (count_lines_indented "link " vl),
    (count_lines_indented "joint " il), (count_lines_indented "joint " vl)
    by assumption.
  change (count_lines "  <link " header) with 0%nat.
  change (count_lines "  <joint " header) with 0%nat.
  change (count_lines "  <link " [link_line root_name]) with 1%nat.
  change (count_lines "  <joint " [link_line root_name]) with 0%nat.
  change (count_lines "  <link " ["  </link>"]) with 0%nat.
  change (count_lines "  <joint " ["  </link>"]) with 0%nat.
  change (count_lines "  <link " ["</robot>"]) with 0%nat.
  change (count_lines "  <joint " ["</robot>"]) with 0%nat.
  split; lia.
Qed.

(** X15: for a model none of whose strings holds a line break, the text of
    the generated document, split at its line breaks, has one line that
    opens a link for the root and one for each segment walked over, and
    one line that opens a joint for each segment. *)
Theorem one_link_per_body_one_joint_per_segment (self : t) (doc : string) :
  plain (spec self) = true ->
  generate_urdf self = inr doc ->
  exists segments_value segments,
    get (spec self) "segments" (PList []) = inr segments_value
    /\ iter segments_value = inr segments
    /\ count_lines "  <link " (split_lines doc) = S (List.length segments)
    /\ count_lines "  <joint " (split_lines doc) = List.length segments.
Proof.
  intros Hp H.
  apply (link_and_joint_counts self (split_lines doc)).
  apply (document_lines self doc Hp H).
Qed.

Lemma one_link_per_body_one_joint_per_segment_witness :
  exists doc,
    generate_urdf chain = inr doc
    /\ exists segments_value segments,
         get (spec chain) "segments" (PList []) = inr segments_value
         /\ iter segments_value = inr segments
         /\ count_lines "  <link " (split_lines doc)
            = S (List.length segments)
         /\ count_lines "  <joint " (split_lines doc) = List.length segments.
Proof.
  eexists. split.
  - reflexivity.
  - apply (one_link_per_body_one_joint_per_segment chain);
      [vm_compute | ]; reflexivity.
Defined.

(** Without that, a name can bring lines of its own: the root alone, with
    a name of three lines, gives a text in which five lines open a link,
    the name being written in the link and in its material. *)
Example name_with_line_breaks_opens_links :
  plain (spec broken_name) = false
  /\ exists doc,
       generate_urdf broken_name = inr doc
       /\ count_lines "  <link " (split_lines doc) = 5%nat.
Proof.
  split; [vm_compute; reflexivity |].
  eexists. split; [reflexivity |]. vm_compute. reflexivity.
Qed.

(** ** The end of the text *)

Lemma concat_last (sep last : string) (lines : list string) :
  lines <> [] ->
  String.concat sep (lines ++ [last])%list
  = String.concat sep lines ++ sep ++ last.
Proof.
  induction lines as [| line rest IH]; intros Hne; [contradiction |].
  destruct rest as [| next rest].
  - reflexivity.
  - change ((line :: next :: rest) ++ [last])%list
      with (line :: next :: (rest ++ [last]))%list.
    rewrite !concat_cons.
    change (next :: (rest ++ [last]))%list with ((next :: rest) ++ [last])%list.
    rewrite IH by discriminate. rewrite !append_assoc. reflexivity.
Qed.

(** X16: the text of every generated document ends with the line that
    closes the robot element and has no line break after it. *)
Theorem text_ends_with_robot_closed (self : t) (doc : string) :
  generate_urdf self = inr doc ->
  exists before, doc = before ++ nl ++ "</robot>".
Proof.
  unfold generate_urdf. intros H. unbind H as lines Hlines.
  injection H as <-.
  apply generate_urdf_lines_inv in Hlines
    as (root & root_name & il & vl & sv & segs & blocks
        & _ & _ & _ & _ & _ & _ & _ & ->).
  exists (String.concat nl
            (header ++ [link_line root_name] ++ il ++ vl ++ ["  </link>"]
             ++ List.concat blocks)%list).
  unfold document.
  replace (header ++ [link_line root_name] ++ il ++ vl ++ ["  </link>"]
           ++ List.concat blocks ++ ["</robot>"])%list
    with ((header ++ [link_line root_name] ++ il ++ vl ++ ["  </link>"]
           ++ List.concat blocks) ++ ["</robot>"])%list
    by (rewrite <- !app_assoc; reflexivity).
  apply concat_last. unfold header. discriminate.
Qed.

Lemma text_ends_with_robot_closed_witness :
  exists doc before,
    generate_urdf base_arm = inr doc /\ doc = before ++ nl ++ "</robot>".
Proof.
  destruct (text_ends_with_robot_closed base_arm _ eq_refl) as (before & H).
  eexists. exists before. split; [reflexivity | exact H].
Defined.

(** ** The lines a document is made of *)

Ltac each_line_known :=
  cbn [app]; repeat (constructor; [reflexivity |]); constructor.

Lemma generate_inertial_known (body : value) (lines : list string) :
  generate_inertial body = inr lines ->
  Forall (fun line => known line = true) lines.
Proof.
  unfold generate_inertial. intros H. unbind_all H. injection H as <-.
  unfold append. each_line_known.
Qed.

Lemma cylinder_lines_known (geom : value) (lines out : list string) :
  cylinder_lines geom lines = inr out ->
  exists more, out = (lines ++ more)%list
               /\ Forall (fun line => known line = true) more.
Proof.
  unfold cylinder_lines. intros H. unbind_all H. injection H as <-.
  unfold append. rewrite <- !app_assoc. eexists. split; [reflexivity |].
  each_line_known.
Qed.

Lemma geometry_lines_known (geom geom_type : value)
  (lines out : list string) :
  geometry_lines geom geom_type lines = inr out ->
  exists more, out = (lines ++ more)%list
               /\ Forall (fun line => known line = true) more.
Proof.
  unfold geometry_lines. intros H.
  destruct (eq_str geom_type "box").
  { unbind_all H. injection H as <-.
    unfold append. rewrite <- !app_assoc. eexists. split; [reflexivity |].
    each_line_known. }
  destruct (eq_str geom_type "sphere").
  { unbind_all H. injection H as <-.
    unfold append. rewrite <- !app_assoc. eexists. split; [reflexivity |].
    each_line_known. }
  destruct (eq_str geom_type "cylinder");
    [apply cylinder_lines_known in H; exact H |].
  destruct (eq_str geom_type "capsule");
    [apply cylinder_lines_known in H; exact H |].
  injection H as <-. exists []. rewrite app_nil_r. split; constructor.
Qed.

Lemma generate_visual_known (body : value) (lines : list string) :
  generate_visual body = inr lines ->
  Forall (fun line => known line = true) lines.
Proof.
  intros H. apply generate_visual_inv in H
    as (geom & gt & shape & rgba & name & r & g & b & a
        & _ & _ & Hshape & _ & _ & _ & _ & _ & _ & ->).
  apply geometry_lines_known in Hshape as (more & -> & Hmore).
  rewrite !Forall_app. repeat split.
  - repeat constructor.
  - exact Hmore.
  - unfold material_block. each_line_known.
Qed.

Lemma axis_lines_known (segment : value) (lines out : list string) :
  axis_lines segment lines = inr out ->
  exists more, out = (lines ++ more)%list
               /\ Forall (fun line => known line = true) more.
Proof.
  unfold axis_lines. intros H.
  unbind H as joint Hjoint. unbind H as has_axis Hhas.
  destruct has_axis.
  - unbind_all H. injection H as <-.
    eexists. split; [reflexivity |]. repeat constructor.
  - injection H as <-. exists []. rewrite app_nil_r. split; constructor.
Qed.

Lemma limit_lines_known (segment : value) (lines out : list string) :
  limit_lines segment lines = inr out ->
  exists more, out = (lines ++ more)%list
               /\ Forall (fun line => known line = true) more.
Proof.
  unfold limit_lines. intros H.
  unbind H as joint Hjoint. unbind H as has_limits Hhas.
  destruct has_limits.
  - unbind H as joint' Hjoint'. unbind H as limits Hlimits.
    destruct (is_list_of_two limits).
    + unbind_all H. injection H as <-.
      eexists. split; [reflexivity |]. repeat constructor.
    + injection H as <-. exists []. rewrite app_nil_r. split; constructor.
  - injection H as <-. exists []. rewrite app_nil_r. split; constructor.
Qed.

Lemma generate_segment_urdf_known (segment parent_name : value)
  (block : list string) :
  generate_segment_urdf segment parent_name = inr block ->
  Forall (fun line => known line = true) block.
Proof.
  unfold generate_segment_urdf. intros H.
  unbind H as seg_name Hname. unbind H as joint Hjoint.
  unbind H as joint_type Htype. unbind H as l1 Haxis. unbind H as l2 Hlimit.
  unbind H as inertial Hinertial. unbind H as visual Hvisual.
  injection H as <-.
  apply axis_lines_known in Haxis as (ex1 & -> & F1).
  apply limit_lines_known in Hlimit as (ex2 & -> & F2).
  apply generate_inertial_known in Hinertial.
  apply generate_visual_known in Hvisual.
  unfold append, extend. rewrite !Forall_app.
  repeat split; try assumption; repeat constructor.
Qed.

Lemma blocks_known (parent_name : value) (segments : list value)
  (blocks : list (list string)) :
  blocks_of parent_name segments blocks ->
  Forall (fun line => known line = true) (List.concat blocks).
Proof.
  intros H. induction H as [| segment block segments blocks Hblock _ IH].
  - constructor.
  - cbn [List.concat]. apply Forall_app. split; [| exact IH].
    apply (generate_segment_urdf_known segment parent_name). exact Hblock.
Qed.

(** Two texts that open the same line: one opens the other. *)
Lemma starts_with_comparable (p : string) :
  forall q line,
    starts_with p line = true -> starts_with q line = true ->
    starts_with p q || starts_with q p = true.
Proof.
  induction p as [| a p IH]; intros q line Hp Hq; [reflexivity |].
  destruct q as [| b q]; [apply orb_true_r |].
  destruct line as [| c line]; [discriminate Hp |].
  simpl in Hp, Hq.
  apply andb_prop in Hp as [Hac Hp]. apply andb_prop in Hq as [Hbc Hq].
  apply Ascii.eqb_eq in Hac. apply Ascii.eqb_eq in Hbc. subst a b.
  simpl. rewrite Ascii.eqb_refl. simpl. apply (IH q line); assumption.
Qed.

Lemma known_is_not_foreign (text line : string) :
  foreign text = true -> known line = true -> starts_with text line = false.
Proof.
  unfold foreign, known. intros Hf Hk.
  destruct (starts_with text line) eqn:E; [| reflexivity].
  apply existsb_exists in Hk as (opening & Hin & Hopen).
  assert (Hex : existsb (fun opening => starts_with opening text
                                        || starts_with text opening)
                  openings = true).
  { apply existsb_exists. exists opening. split; [exact Hin |].
    apply (starts_with_comparable opening text line); assumption. }
  rewrite Hex in Hf. discriminate Hf.
Qed.

(** X17: for a model none of whose strings holds a line break, every line
    of the text of the generated document opens with one of the thirty-two
    texts the generators write at the start of a line; so no line of it
    opens with a text foreign to them. *)
Theorem lines_open_as_the_generators_write (self : t) (doc : string) :
  plain (spec self) = true ->
  generate_urdf self = inr doc ->
  Forall (fun line => known line = true) (split_lines doc)
  /\ forall text, foreign text = true ->
                  Forall (fun line => starts_with text line = false)
                    (split_lines doc).
Proof.
  intros Hp H. apply (document_lines self doc Hp) in H.
  assert (Hknown : Forall (fun line => known line = true) (split_lines doc)).
  { apply generate_urdf_lines_inv in H
      as (root & root_name & il & vl & sv & segs & blocks
          & _ & _ & Hil & Hvl & _ & _ & Hb & ->).
    apply generate_inertial_known in Hil.
    apply generate_visual_known in Hvl.
    apply blocks_known in Hb.
    unfold document, header. rewrite !Forall_app.
    repeat split; try assumption; repeat constructor. }
  split; [exact Hknown |].
  intros text Hforeign. eapply Forall_impl; [| exact Hknown].
  intros line Hline. apply (known_is_not_foreign text line Hforeign Hline).
Qed.

Lemma lines_open_as_the_generators_write_witness :
  exists doc,
    generate_urdf chain = inr doc
    /\ Forall (fun line => known line = true) (split_lines doc)
    /\ Forall (fun line => starts_with "    <origin" line = false)
         (split_lines doc)
    /\ Forall (fun line => starts_with "    <collision" line = false)
         (split_lines doc).
Proof.
  eexists. split; [reflexivity |].
  destruct (lines_open_as_the_generators_write chain _ eq_refl eq_refl)
    as [Hknown Hforeign].
  split; [exact Hknown |].
  split; apply Hforeign; reflexivity.
Defined.
